(** * Forward pass of the CNN in [CNN-golang/cnn.go]

    A shallow embedding of the Go program: slices are lists, [int] is a
    64-bit two's-complement integer carried in [Z] with its wrap-around
    written out, [float64] is Rocq's primitive binary64 float, and a
    run-time panic is an explicit error result.  The layers are
    transcribed statement by statement, loops included; the theorems
    relate them to the closed formulas of the specification.  The
    initialization helpers, the diagnostics and [main] from the decoded
    image on follow, with the generator of [math/rand] and the decoded
    image as explicit inputs. *)

From Stdlib Require Import ZArith Lia Floats.
From Stdlib Require Import Strings.Byte Ascii String DecimalString.
From stdpp Require Import base list.

Open Scope Z_scope.

(** ** Run-time panics and the error monad *)

Inductive panic : Set :=
| index_out_of_range
| slice_bounds_out_of_range
| integer_divide_by_zero
| makeslice_len_out_of_range.

Inductive result (A : Type) : Type :=
| Ok (a : A)
| Panic (p : panic).

Arguments Ok {A} a.
Arguments Panic {A} p.

Definition bind {A B : Type} (m : result A) (k : A -> result B) : result B :=
  match m with
  | Ok a => k a
  | Panic p => Panic p
  end.

Notation "x <- m ;; k" := (bind m (fun x => k))
  (at level 100, m at next level, right associativity).

(** ** Go's [int] on a 64-bit platform *)

Module GoInt.

Definition min_int : Z := - 2 ^ 63.
Definition max_int : Z := 2 ^ 63 - 1.

Definition in_range (z : Z) : Prop := min_int <= z <= max_int.

Definition wrap (z : Z) : Z := (z + 2 ^ 63) mod 2 ^ 64 - 2 ^ 63.

Definition add (a b : Z) : Z := wrap (a + b).
Definition sub (a b : Z) : Z := wrap (a - b).
Definition mul (a b : Z) : Z := wrap (a * b).

(** Integer division truncates toward zero and panics on a zero divisor;
    [min_int / -1] wraps back to [min_int]. *)
Definition div (a b : Z) : result Z :=
  if b =? 0 then Panic integer_divide_by_zero else Ok (wrap (a ÷ b)).

End GoInt.

(** ** Slices *)

(** [len s]; a Go slice never holds more than [GoInt.max_int] elements. *)
Definition len {A : Type} (s : list A) : Z := Z.of_nat (length s).

(** [s[i]] as an operand. *)
Definition index {A : Type} (s : list A) (i : Z) : result A :=
  if i <? 0 then Panic index_out_of_range
  else match s !! Z.to_nat i with
       | Some v => Ok v
       | None => Panic index_out_of_range
       end.

(** [s[i] = v]. *)
Definition store {A : Type} (s : list A) (i : Z) (v : A) : result (list A) :=
  if (0 <=? i) && (i <? len s)
  then Ok (<[Z.to_nat i := v]> s)
  else Panic index_out_of_range.

(** [make([]T, n)], every element the zero value of [T]; running out of
    memory is not modelled. *)
Definition make {A : Type} (zero : A) (n : Z) : result (list A) :=
  if n <? 0 then Panic makeslice_len_out_of_range
  else Ok (replicate (Z.to_nat n) zero).

(** [copy(dst[p:], src)] seen from [dst]: the slice expression needs
    [0 <= p <= len(dst)], and [copy] moves [min(len(dst)-p, len(src))]
    elements. *)
Definition copy_from {A : Type} (dst : list A) (p : Z) (src : list A)
  : result (list A) :=
  if (0 <=? p) && (p <=? len dst)
  then let k := Z.to_nat p in
       let n := Nat.min (length dst - k) (length src) in
       Ok (take k dst ++ take n src ++ drop (k + n) dst)
  else Panic slice_bounds_out_of_range.

(** ** Counted loops

    [for i := lo; i < lo+n; i++ { s = body i s }].  The bodies below never
    assign the loop variable, and the bound is an [int], so the counter
    itself cannot wrap.  [for i := range s] is the same loop over
    [len s]. *)

Fixpoint for_loop {S : Type} (n : nat) (i : Z)
  (body : Z -> S -> result S) (s : S) : result S :=
  match n with
  | O => Ok s
  | Datatypes.S n' => s' <- body i s ;; for_loop n' (i + 1) body s'
  end.

Definition for_upto {S : Type} (n : Z) (body : Z -> S -> result S) (s : S)
  : result S :=
  for_loop (Z.to_nat n) 0 body s.

(** ** float64

    IEEE 754 binary64 with round-to-nearest-even, every operation
    rounded on its own as the Go compiler does on amd64 ([x*y + z] is not
    fused). *)

Abbreviation float64 := float (only parsing).

Abbreviation Vector1D := (list float64) (only parsing).
Abbreviation Grid2D := (list (list float64)) (only parsing).
Abbreviation Tensor3D := (list (list (list float64))) (only parsing).

(** Go's standard library [math] package, which is outside the
    repository: transcribed from its portable implementation and its
    documented special cases ([Max(x, +Inf) = Max(+Inf, x) = +Inf],
    [Max(x, NaN) = Max(NaN, x) = NaN], [Max(+0, ±0) = Max(±0, +0) = +0],
    [Max(-0, -0) = -0]). *)
Module math.

Definition MaxFloat64 : float64 := 0x1.fffffffffffffp+1023%float.

Definition IsNaN (f : float64) : bool := negb (f =? f)%float.

Definition IsInf (f : float64) (sign : Z) : bool :=
  ((sign >=? 0) && (MaxFloat64 <? f)%float)
  || ((sign <=? 0) && (f <? - MaxFloat64)%float).

(** Only consulted on zeros by [Max]. *)
Definition Signbit (x : float64) : bool :=
  match classify x with
  | NInf | NNormal | NSubn | NZero => true
  | _ => false
  end.

Definition Max (x y : float64) : float64 :=
  if IsInf x 1 || IsInf y 1 then infinity
  else if IsNaN x || IsNaN y then nan
  else if (x =? 0)%float && (x =? y)%float
       then (if Signbit x then y else x)
  else if (y <? x)%float then x
  else y.

End math.

Definition relu (x : float64) : float64 := math.Max 0%float x.

(** ** Utility functions *)

(** [padded := make([][]float64, rows); for i := range padded
    { padded[i] = make([]float64, cols) }] *)
Definition make2D (rows cols : Z) : result Grid2D :=
  g <- make [] rows ;;
  for_upto (len g)
    (fun i g => r <- make 0%float cols ;; store g i r) g.

Definition pad2D (input : Grid2D) (padding : Z) : result Grid2D :=
  if padding =? 0 then Ok input
  else
    let h := len input in
    in0 <- index input 0 ;;
    let w := len in0 in
    padded <- make2D (GoInt.add h (GoInt.mul 2 padding))
                     (GoInt.add w (GoInt.mul 2 padding)) ;;
    for_upto h
      (fun i padded =>
         dst <- index padded (GoInt.add i padding) ;;
         src <- index input i ;;
         dst' <- copy_from dst padding src ;;
         store padded (GoInt.add i padding) dst')
      padded.

(** [output[a][b][c] = v] *)
Definition store3 (t : Tensor3D) (a b c : Z) (v : float64) : result Tensor3D :=
  ch <- index t a ;;
  row <- index ch b ;;
  row' <- store row c v ;;
  ch' <- store ch b row' ;;
  store t a ch'.

(** [output := make([][][]float64, n); for f := range output
    { output[f] = make([][]float64, outH); for i := range output[f]
    { output[f][i] = make([]float64, outW) } }] *)
Definition make3D (n outH outW : Z) : result Tensor3D :=
  t <- make [] n ;;
  for_upto (len t)
    (fun f t => ch <- make2D outH outW ;; store t f ch) t.

(** ** Convolutional layer *)

Module ConvLayer.

Record t : Set := Build {
  Filters : list (list (list (list float64)));
  Biases : list float64;
  Stride : Z;
  Padding : Z
}.

(** [(size + 2*padding - kernel)/stride + 1], the expression of lines
    33 and 34. *)
Definition out_dim (size padding kernel stride : Z) : result Z :=
  q <- GoInt.div
         (GoInt.sub (GoInt.add size (GoInt.mul 2 padding)) kernel) stride ;;
  Ok (GoInt.add q 1).

(** The accumulation of lines 54 to 63 for one output cell. *)
Definition window_sum (cl : t) (padded : Tensor3D)
  (inChannels kernelH kernelW f y x : Z) : result float64 :=
  for_upto inChannels
    (fun c sum =>
       let yStart := GoInt.mul y (Stride cl) in
       let xStart := GoInt.mul x (Stride cl) in
       for_upto kernelH
         (fun ky sum =>
            for_upto kernelW
              (fun kx sum =>
                 pc <- index padded c ;;
                 prow <- index pc (GoInt.add yStart ky) ;;
                 pv <- index prow (GoInt.add xStart kx) ;;
                 ff <- index (Filters cl) f ;;
                 fc <- index ff c ;;
                 frow <- index fc ky ;;
                 fv <- index frow kx ;;
                 Ok (sum + pv * fv)%float)
              sum)
         sum)
    0%float.

Definition Forward (cl : t) (input : Tensor3D) : result Tensor3D :=
  let numFilters := len (Filters cl) in
  let inChannels := len input in
  f0 <- index (Filters cl) 0 ;;
  f00 <- index f0 0 ;;
  let kernelH := len f00 in
  f000 <- index f00 0 ;;
  let kernelW := len f000 in
  in0 <- index input 0 ;;
  let inputH := len in0 in
  in00 <- index in0 0 ;;
  let inputW := len in00 in
  outH <- out_dim inputH (Padding cl) kernelH (Stride cl) ;;
  outW <- out_dim inputW (Padding cl) kernelW (Stride cl) ;;
  output <- make3D numFilters outH outW ;;
  padded0 <- make [] inChannels ;;
  padded <- for_upto (len padded0)
              (fun c padded =>
                 ic <- index input c ;;
                 p <- pad2D ic (Padding cl) ;;
                 store padded c p)
              padded0 ;;
  for_upto numFilters
    (fun f output =>
       for_upto outH
         (fun y output =>
            for_upto outW
              (fun x output =>
                 sum <- window_sum cl padded inChannels kernelH kernelW f y x ;;
                 b <- index (Biases cl) f ;;
                 store3 output f y x (relu (sum + b)%float))
              output)
         output)
    output.

End ConvLayer.

(** ** Max pooling layer *)

Module MaxPoolLayer.

Record t : Set := Build {
  PoolSize : Z;
  Stride : Z
}.

(** [(size - PoolSize)/Stride + 1], the expression of lines 82 and 83. *)
Definition out_dim (size pool stride : Z) : result Z :=
  q <- GoInt.div (GoInt.sub size pool) stride ;;
  Ok (GoInt.add q 1).

(** Lines 98 to 106: the running maximum over one window of a channel. *)
Definition window_max (mpl : t) (input : Tensor3D) (c yStart xStart : Z)
  : result float64 :=
  ic <- index input c ;;
  r0 <- index ic yStart ;;
  v0 <- index r0 xStart ;;
  for_upto (PoolSize mpl)
    (fun ky maxVal =>
       for_upto (PoolSize mpl)
         (fun kx maxVal =>
            ic <- index input c ;;
            r <- index ic (GoInt.add yStart ky) ;;
            val <- index r (GoInt.add xStart kx) ;;
            Ok (if (maxVal <? val)%float then val else maxVal))
         maxVal)
    v0.

Definition Forward (mpl : t) (input : Tensor3D) : result Tensor3D :=
  let channels := len input in
  in0 <- index input 0 ;;
  let h := len in0 in
  in00 <- index in0 0 ;;
  let w := len in00 in
  outH <- out_dim h (PoolSize mpl) (Stride mpl) ;;
  outW <- out_dim w (PoolSize mpl) (Stride mpl) ;;
  output <- make3D channels outH outW ;;
  for_upto channels
    (fun c output =>
       for_upto outH
         (fun y output =>
            for_upto outW
              (fun x output =>
                 let yStart := GoInt.mul y (Stride mpl) in
                 let xStart := GoInt.mul x (Stride mpl) in
                 maxVal <- window_max mpl input c yStart xStart ;;
                 store3 output c y x maxVal)
              output)
         output)
    output.

End MaxPoolLayer.

(** ** Flatten layer *)

Module FlattenLayer.

Definition Forward (input : Tensor3D) : result Vector1D :=
  in0 <- index input 0 ;;
  in00 <- index in0 0 ;;
  let size := GoInt.mul (GoInt.mul (len input) (len in0)) (len in00) in
  output <- make 0%float size ;;
  st <-
    for_upto (len input)
      (fun c st =>
         ic <- index input c ;;
         for_upto (len ic)
           (fun y st =>
              icy <- index ic y ;;
              for_upto (len icy)
                (fun x st =>
                   let '(output, i) := st in
                   ic <- index input c ;;
                   icy <- index ic y ;;
                   v <- index icy x ;;
                   output' <- store output i v ;;
                   Ok (output', GoInt.add i 1))
                st)
           st)
      (output, 0) ;;
  Ok (fst st).

End FlattenLayer.

(** ** Dense layer *)

Module DenseLayer.

Record t : Set := Build {
  Weights : list (list float64);
  Biases : list float64
}.

Definition Forward (dl : t) (input : Vector1D) : result Vector1D :=
  output <- make 0%float (len (Biases dl)) ;;
  for_upto (len output)
    (fun i output =>
       b <- index (Biases dl) i ;;
       output <- store output i b ;;
       output <- for_upto (len input)
                   (fun j output =>
                      wi <- index (Weights dl) i ;;
                      wij <- index wi j ;;
                      xj <- index input j ;;
                      oi <- index output i ;;
                      store output i (oi + wij * xj)%float)
                   output ;;
       oi <- index output i ;;
       store output i (relu oi))
    output.

End DenseLayer.

(** ** Initialization helpers (lines 171 to 200)

    [rand.NormFloat64] draws from the process-wide generator of
    [math/rand], which is outside the repository: the generator is a
    state [Rng] passed along explicitly, and a draw returns the value
    with the next state. *)

Section Random.

Context {Rng : Type} (NormFloat64 : Rng -> float64 * Rng).

(** The constant [0.1] as a [float64]. *)
Definition one_tenth : float64 := 0x1.999999999999ap-4%float.

Definition randomArray (size : Z) (g : Rng) : result (Vector1D * Rng) :=
  arr <- make 0%float size ;;
  for_upto (len arr)
    (fun i st =>
       let '(arr, g) := st in
       let '(v, g') := NormFloat64 g in
       arr' <- store arr i (v * one_tenth)%float ;;
       Ok (arr', g'))
    (arr, g).

Definition randomMatrix (rows cols : Z) (g : Rng) : result (Grid2D * Rng) :=
  m <- make [] rows ;;
  for_upto (len m)
    (fun i st =>
       let '(m, g) := st in
       r <- randomArray cols g ;;
       m' <- store m i (fst r) ;;
       Ok (m', snd r))
    (m, g).

(** [filters[f][c] = make([][]float64, height)] and the loop over its
    rows. *)
Definition randomKernel (height width : Z) (g : Rng)
  : result (Grid2D * Rng) :=
  k <- make [] height ;;
  for_upto (len k)
    (fun h st =>
       let '(k, g) := st in
       r <- randomArray width g ;;
       k' <- store k h (fst r) ;;
       Ok (k', snd r))
    (k, g).

(** [filters[f] = make([][][]float64, channels)] and the loop over its
    channels. *)
Definition randomFilter (channels height width : Z) (g : Rng)
  : result (Tensor3D * Rng) :=
  t <- make [] channels ;;
  for_upto (len t)
    (fun c st =>
       let '(t, g) := st in
       r <- randomKernel height width g ;;
       t' <- store t c (fst r) ;;
       Ok (t', snd r))
    (t, g).

Definition randomFilters (num channels height width : Z) (g : Rng)
  : result (list Tensor3D * Rng) :=
  filters <- make [] num ;;
  for_upto (len filters)
    (fun f st =>
       let '(filters, g) := st in
       r <- randomFilter channels height width g ;;
       filters' <- store filters f (fst r) ;;
       Ok (filters', snd r))
    (filters, g).

End Random.

(** ** Diagnostics (lines 202 to 208) *)

Definition newline : string := String "010"%char EmptyString.

(** The verb [%d] of [fmt.Printf] on an [int]. *)
Definition decimal (n : Z) : string := NilZero.string_of_int (Z.to_int n).

(** [printDimensions] returns the text it writes to standard output. *)
Definition printDimensions (label : string) (x : Tensor3D) : result string :=
  x0 <- index x 0 ;;
  x00 <- index x0 0 ;;
  Ok (String.concat EmptyString
        [label; ": "%string; decimal (len x); " channels "%string;
         decimal (len x0); "x"%string; decimal (len x00); newline]).

(** ** The image packages of Go's standard library

    Outside the repository, and transcribed from their documentation:
    a rectangle holds the points with [Min.X <= x < Max.X] and
    [Min.Y <= y < Max.Y]; an [image.Gray] keeps one byte per pixel in
    [Pix], the pixel [(x, y)] at offset
    [(y - Rect.Min.Y)*Stride + (x - Rect.Min.X)]; [SetGray] ignores a
    point outside [Rect] and [GrayAt] returns [Gray{}] there. *)

Module image.

Record Rectangle : Set := Rect {
  MinX : Z;
  MinY : Z;
  MaxX : Z;
  MaxY : Z
}.

Definition Dx (r : Rectangle) : Z := GoInt.sub (MaxX r) (MinX r).
Definition Dy (r : Rectangle) : Z := GoInt.sub (MaxY r) (MinY r).

Definition PointIn (x y : Z) (r : Rectangle) : bool :=
  (MinX r <=? x) && (x <? MaxX r) && (MinY r <=? y) && (y <? MaxY r).

Record Gray : Set := MkGray {
  Pix : list byte;
  Stride : Z;
  Bounds : Rectangle
}.

Definition PixOffset (p : Gray) (x y : Z) : Z :=
  GoInt.add (GoInt.mul (GoInt.sub y (MinY (Bounds p))) (Stride p))
            (GoInt.mul (GoInt.sub x (MinX (Bounds p))) 1).

Definition SetGray (p : Gray) (x y : Z) (c : byte) : result Gray :=
  if negb (PointIn x y (Bounds p)) then Ok p
  else pix <- store (Pix p) (PixOffset p x y) c ;;
       Ok (MkGray pix (Stride p) (Bounds p)).

Definition GrayAt (p : Gray) (x y : Z) : result byte :=
  if negb (PointIn x y (Bounds p)) then Ok x00
  else index (Pix p) (PixOffset p x y).

(** [image.NewGray(image.Rect(0, 0, 28, 28))] *)
Definition NewGray28 : Gray := MkGray (replicate 784 x00) 28 (Rect 0 0 28 28).

(** What [main] uses of the decoded image: [img.Bounds()] and, for
    [GrayOf x y], the [Y] of
    [color.GrayModel.Convert(img.At(x, y)).(color.Gray)]. *)
Record Image : Type := MkImage {
  ImageBounds : Rectangle;
  GrayOf : Z -> Z -> byte
}.

End image.

(** ** [main] after the image is decoded (lines 223 to 297) *)

(** [float64(c.Y)] for a [uint8]. *)
Definition float64_of_uint8 (b : byte) : float64 :=
  PrimFloat.of_uint63 (Uint63.of_Z (Z.of_N (Byte.to_N b))).

(** [bounds.Min.X + x*bounds.Dx()/28] of lines 229 and 230. *)
Definition sample_coord (min d x : Z) : result Z :=
  q <- GoInt.div (GoInt.mul x d) 28 ;;
  Ok (GoInt.add min q).

(** Lines 224 to 233: the 28×28 grayscale copy. *)
Definition resize (img : image.Image) : result image.Gray :=
  let bounds := image.ImageBounds img in
  for_upto 28
    (fun y resized =>
       for_upto 28
         (fun x resized =>
            srcX <- sample_coord (image.MinX bounds) (image.Dx bounds) x ;;
            srcY <- sample_coord (image.MinY bounds) (image.Dy bounds) y ;;
            image.SetGray resized x y (image.GrayOf img srcX srcY))
         resized)
    image.NewGray28.

(** [float64(resized.GrayAt(x, y).Y) / 255.0] *)
Definition intensity (b : byte) : float64 :=
  (float64_of_uint8 b / 255)%float.

(** Lines 236 to 243: the input tensor. *)
Definition input_tensor (resized : image.Gray) : result Tensor3D :=
  input <- make [] 1 ;;
  ch <- make [] 28 ;;
  input <- store input 0 ch ;;
  for_upto 28
    (fun y input =>
       row <- make 0%float 28 ;;
       in0 <- index input 0 ;;
       in0' <- store in0 y row ;;
       input <- store input 0 in0' ;;
       for_upto 28
         (fun x input =>
            c <- image.GrayAt resized x y ;;
            store3 input 0 y x (intensity c))
         input)
    input.

Section Network.

Context {Rng : Type} (NormFloat64 : Rng -> float64 * Rng).

(** Lines 246 to 297, with [g] the generator as [rand.Seed] leaves it.
    The struct literals evaluate their fields in order, so the filters
    are drawn before the biases.  The result holds the lines written to
    standard output before the last one, the class scores that the last
    line prints, and the generator; how [fmt.Println] formats the scores
    is left out. *)
Definition network (input : Tensor3D) (g : Rng)
  : result (list string * Vector1D * Rng) :=
  r <- randomFilters NormFloat64 3 1 3 3 g ;;
  b <- randomArray NormFloat64 3 (snd r) ;;
  let conv1 := ConvLayer.Build (fst r) (fst b) 1 1 in
  let pool1 := MaxPoolLayer.Build 2 2 in
  r <- randomFilters NormFloat64 5 3 3 3 (snd b) ;;
  b <- randomArray NormFloat64 5 (snd r) ;;
  let conv2 := ConvLayer.Build (fst r) (fst b) 1 1 in
  let pool2 := MaxPoolLayer.Build 2 2 in
  let g := snd b in
  x <- ConvLayer.Forward conv1 input ;;
  l1 <- printDimensions "After conv1" x ;;
  x <- MaxPoolLayer.Forward pool1 x ;;
  l2 <- printDimensions "After pool1" x ;;
  x <- ConvLayer.Forward conv2 x ;;
  l3 <- printDimensions "After conv2" x ;;
  x <- MaxPoolLayer.Forward pool2 x ;;
  l4 <- printDimensions "After pool2" x ;;
  flatX <- FlattenLayer.Forward x ;;
  let l5 := String.concat EmptyString
              ["Flattened size: "%string; decimal (len flatX); newline] in
  r <- randomMatrix NormFloat64 128 (len flatX) g ;;
  b <- randomArray NormFloat64 128 (snd r) ;;
  let dense1 := DenseLayer.Build (fst r) (fst b) in
  denseOut <- DenseLayer.Forward dense1 flatX ;;
  r <- randomMatrix NormFloat64 10 128 (snd b) ;;
  b <- randomArray NormFloat64 10 (snd r) ;;
  let dense2 := DenseLayer.Build (fst r) (fst b) in
  output <- DenseLayer.Forward dense2 denseOut ;;
  Ok ([l1; l2; l3; l4; l5], output, snd b).

(** [main] from the decoded image on. *)
Definition main_from (img : image.Image) (g : Rng)
  : result (list string * Vector1D * Rng) :=
  resized <- resize img ;;
  input <- input_tensor resized ;;
  network input g.

End Network.

(** * Specification-side definitions *)

(** §4.1 of the specification: the closed form of an output dimension,
    with mathematical (floor) division. *)
Definition output_size (inputSize kernelSize stride padding : Z) : Z :=
  (inputSize + 2 * padding - kernelSize) / stride + 1.

(** [g[i][j]], [t[c][i][j]] and [fb[f][c][i][j]] as operands. *)
Definition at2 (g : Grid2D) (i j : Z) : result float64 :=
  r <- index g i ;; index r j.

Definition at3 (t : Tensor3D) (c i j : Z) : result float64 :=
  g <- index t c ;; at2 g i j.

Definition at4 (fb : list Tensor3D) (f c i j : Z) : result float64 :=
  t <- index fb f ;; at3 t c i j.

(** The value of an operand, zero where the operand is out of range. *)
Definition value (r : result float64) : float64 :=
  match r with
  | Ok v => v
  | Panic _ => 0%float
  end.

(** §3 of the specification: all rows of a grid have the same length, all
    channels of a tensor the same height and width, all filters of a bank
    the same shape. *)
Definition rect2 (g : Grid2D) (h w : Z) : Prop :=
  len g = h /\ Forall (fun r => len r = w) g.

Definition rect3 (t : Tensor3D) (c h w : Z) : Prop :=
  len t = c /\ Forall (fun g => rect2 g h w) t.

Definition rect4 (fb : list Tensor3D) (n c h w : Z) : Prop :=
  len fb = n /\ Forall (fun t => rect3 t c h w) fb.

(** Every cell of a tensor satisfies [P]. *)
Definition all_cells (P : float64 -> Prop) (t : Tensor3D) : Prop :=
  Forall (Forall (Forall P)) t.

(** The channel an operand denotes, empty where it is out of range. *)
Definition value2 (t : Tensor3D) (c : Z) : Grid2D :=
  match index t c with
  | Ok g => g
  | Panic _ => []
  end.

(** A sum of floating-point terms, accumulated from left to right onto
    [init] as the loops of the program do; floating-point addition is not
    associative, so the order is part of the meaning. *)
Definition sum_from (init : float64) (terms : list float64) : float64 :=
  fold_left PrimFloat.add terms init.

(** §4.2 and §4.3: cell [(i, j)] of channel [c] of the input surrounded by
    [p] rows and columns of zeros on every side. *)
Definition padded_input (input : Tensor3D) (p c i j : Z) : float64 :=
  value (at3 input c (i - p) (j - p)).

(** §4.3: the products for output position [(y, x)] of filter [f], over
    the input channels [c] and the kernel offsets [(ky, kx)], in that
    order. *)
Definition conv_terms (cl : ConvLayer.t) (input : Tensor3D)
  (channels kernelH kernelW f y x : Z) : list float64 :=
  c ← seqZ 0 channels;
  ky ← seqZ 0 kernelH;
  kx ← seqZ 0 kernelW;
  [(padded_input input (ConvLayer.Padding cl) c
      (y * ConvLayer.Stride cl + ky) (x * ConvLayer.Stride cl + kx)
    * value (at4 (ConvLayer.Filters cl) f c ky kx))%float].

(** A row between [p] zeros on either side, and a row of zeros. *)
Definition pad_row (p : Z) (r : list float64) : list float64 :=
  replicate (Z.to_nat p) 0%float ++ r ++ replicate (Z.to_nat p) 0%float.

Definition zero_row (w : Z) : list float64 := replicate (Z.to_nat w) 0%float.

(** The value of output cell [(f, y, x)] with the bias added after the
    accumulation, as on line 64. *)
Definition conv_cell (cl : ConvLayer.t) (input : Tensor3D)
  (channels kernelH kernelW f y x : Z) : float64 :=
  relu (sum_from 0%float
          (conv_terms cl input channels kernelH kernelW f y x)
        + value (index (ConvLayer.Biases cl) f))%float.


(** §4.4: the cells of the pool window of channel [c] that starts at
    [(y*stride, x*stride)], row by row. *)
Definition pool_window (mpl : MaxPoolLayer.t) (input : Tensor3D)
  (c y x : Z) : list float64 :=
  ky ← seqZ 0 (MaxPoolLayer.PoolSize mpl);
  kx ← seqZ 0 (MaxPoolLayer.PoolSize mpl);
  [value (at3 input c (y * MaxPoolLayer.Stride mpl + ky)
                      (x * MaxPoolLayer.Stride mpl + kx))].

(** Lines 102 to 104: [if val > maxVal { maxVal = val }], and the scan of
    a window with it. *)
Definition pick_max (maxVal val : float64) : float64 :=
  if (maxVal <? val)%float then val else maxVal.

Definition running_max (first : float64) (window : list float64) : float64 :=
  fold_left pick_max window first.

(** The value the scan of lines 98 to 106 leaves in [maxVal] for output
    cell [(c, y, x)]. *)
Definition pool_cell (mpl : MaxPoolLayer.t) (input : Tensor3D)
  (c y x : Z) : float64 :=
  running_max
    (value (at3 input c (y * MaxPoolLayer.Stride mpl)
                        (x * MaxPoolLayer.Stride mpl)))
    (pool_window mpl input c y x).


(** §4.5: the flat index of cell [(ch, y, x)] in channel-major, then
    row, then column order, and the tensor rebuilt from a flat vector
    with known [(c, h, w)]. *)
Definition flat_index (h w ch y x : Z) : Z := ch * h * w + y * w + x.


(** §4.6: the products of output neuron [i], and its value: the bias
    plus the products in index order, then the activation. *)
Definition dense_terms (dl : DenseLayer.t) (input : Vector1D) (i : Z)
  : list float64 :=
  (fun j => (value (at2 (DenseLayer.Weights dl) i j)
             * value (index input j))%float)
  <$> seqZ 0 (len input).

Definition dense_output (dl : DenseLayer.t) (input : Vector1D) (i : Z)
  : float64 :=
  relu (sum_from (value (index (DenseLayer.Biases dl) i))
                 (dense_terms dl input i)).

(** [v] is non-negative, and [v] is not negative: it is [NaN], or zero,
    or positive. *)
Definition nonneg (v : float64) : Prop := (0 <=? v)%float = true.

Definition nonneg_or_nan (v : float64) : Prop :=
  math.IsNaN v = true \/ nonneg v.

(** What the loop of lines 45 to 48 leaves in [padded]: channel [c] is
    the zero-padded channel [c] of the input. *)
Definition padded_channels_ok (input : Tensor3D)
  (padding inChannels inputH inputW : Z) (padded : Tensor3D) : Prop :=
  forall c, 0 <= c < inChannels ->
    exists g, index padded c = Ok g
      /\ forall i j, 0 <= i < inputH + 2 * padding ->
                     0 <= j < inputW + 2 * padding ->
           at2 g i j = Ok (padded_input input padding c i j).

(** The loops of lines 51 to 67, from the padded channels and the
    allocated output. *)
Definition conv_loops_from (cl : ConvLayer.t)
  (numFilters outH outW inChannels kernelH kernelW : Z)
  (padded output : Tensor3D) : result Tensor3D :=
  for_upto numFilters
    (fun f output =>
       for_upto outH
         (fun y output =>
            for_upto outW
              (fun x output =>
                 sum <- ConvLayer.window_sum cl padded inChannels
                          kernelH kernelW f y x ;;
                 b <- index (ConvLayer.Biases cl) f ;;
                 store3 output f y x (relu (sum + b)%float))
              output)
         output)
    output.

(** ** Data of the scenarios of §8 *)

Definition ones (h w : nat) : list (list float64) :=
  replicate h (replicate w 1%float).

(** One 3×3 filter of ones over one channel, bias 0, stride 1,
    padding 1. *)
Definition conv_3x3_ones : ConvLayer.t :=
  ConvLayer.Build [[ones 3 3]] [0%float] 1 1.

(** The pooling of [main]: 2×2 windows, stride 2. *)
Definition pool_2x2 : MaxPoolLayer.t := MaxPoolLayer.Build 2 2.

(** A pool size larger than a 2×2 input. *)
Definition pool_3x3 : MaxPoolLayer.t := MaxPoolLayer.Build 3 1.


(** One 4×4 channel of distinct finite values. *)
Definition ramp_4x4 : list (list (list float64)) :=
  [[[1; 2; 3; 4]; [5; 6; 7; 8]; [9; 10; 11; 12]; [13; 14; 15; 16]]]%float.

(** One neuron over two input features, and a 2×2 identity layer. *)
Definition dense_1x2 : DenseLayer.t :=
  DenseLayer.Build [[1%float; 2%float]] [0%float].

Definition dense_identity : DenseLayer.t :=
  DenseLayer.Build [[1%float; 0%float]; [0%float; 1%float]]
                   [0%float; 0%float].

(** Two neurons in a row with finite weights: the first overflows, the
    second multiplies the overflow by zero. *)
Definition dense_overflow : DenseLayer.t :=
  DenseLayer.Build [[0x1p1023%float]] [0%float].

Definition dense_zero : DenseLayer.t :=
  DenseLayer.Build [[0%float]] [0%float].


(** A pool size of zero with stride 2, and a 3×3 channel for it. *)
Definition pool_size_zero : MaxPoolLayer.t := MaxPoolLayer.Build 0 2.

Definition ramp_3x3 : list (list (list float64)) :=
  [[[1; 2; 3]; [4; 5; 6]; [7; 8; 9]]]%float.

(** A zero stride, and a 3×3 window with stride 2. *)
Definition pool_stride_zero : MaxPoolLayer.t := MaxPoolLayer.Build 2 0.

Definition pool_3x3_stride_2 : MaxPoolLayer.t := MaxPoolLayer.Build 3 2.

(** The 3×3 filter of ones with a zero stride, and without padding. *)
Definition conv_stride_zero : ConvLayer.t :=
  ConvLayer.Build [[ones 3 3]] [0%float] 0 1.

Definition conv_3x3_no_padding : ConvLayer.t :=
  ConvLayer.Build [[ones 3 3]] [0%float] 1 0.

(** Position [i] lies on the border of a side of length 4. *)
Definition on_border (i : Z) : bool := (i =? 0) || (i =? 3).

(** ** The draws behind the initialization helpers *)

Section Draws.

Context {Rng : Type} (NormFloat64 : Rng -> float64 * Rng).

(** The generator after [n] draws. *)
Definition advance (n : Z) (g : Rng) : Rng :=
  Nat.iter (Z.to_nat n) (fun g => snd (NormFloat64 g)) g.

(** The parameter made from draw number [n], counted from 0. *)
Definition weight (n : Z) (g : Rng) : float64 :=
  (fst (NormFloat64 (advance n g)) * one_tenth)%float.

End Draws.

(** A generator to run the helpers on: draw number [n] is [n]. *)
Definition counter (g : Z) : float64 * Z :=
  (PrimFloat.of_uint63 (Uint63.of_Z g), g + 1).

(** An image of 56×56 pixels whose gray level at [(x, y)] is [x + y]. *)
Definition gradient_56 : image.Image :=
  image.MkImage (image.Rect 0 0 56 56)
    (fun x y => match Byte.of_N (Z.to_N ((x + y) mod 256)) with
                | Some b => b
                | None => x00
                end).


(** The 3×3 filter of ones with a negative padding. *)
Definition conv_negative_padding_layer : ConvLayer.t :=
  ConvLayer.Build [[ones 3 3]] [0%float] 1 (-1).


(** One channel whose second row is shorter than the first, and one
    whose second row is longer. *)
Definition short_second_row : list (list (list float64)) :=
  [[[1; 2]; [3]]]%float.

Definition long_second_row : list (list (list float64)) :=
  [[[1]; [2; 3]]]%float.

(** ** The input of [main] *)

(** What [sample_coord] returns: the division by the constant 28 cannot
    panic. *)
Definition source_coord (min d x : Z) : Z :=
  GoInt.add min (GoInt.wrap (GoInt.mul x d ÷ 28)).

(** The gray level that lines 229 to 231 read for the pixel [(x, y)] of
    the 28×28 copy. *)
Definition sampled (img : image.Image) (x y : Z) : byte :=
  image.GrayOf img
    (source_coord (image.MinX (image.ImageBounds img))
                  (image.Dx (image.ImageBounds img)) x)
    (source_coord (image.MinY (image.ImageBounds img))
                  (image.Dy (image.ImageBounds img)) y).

(** A 28×28 gray image as [image.NewGray] lays it out. *)
Definition gray_28 (p : image.Gray) : Prop :=
  image.Stride p = 28 /\ image.Bounds p = image.Rect 0 0 28 28
  /\ len (image.Pix p) = 784.

Definition unit_interval (v : float64) : Prop :=
  (0 <=? v)%float = true /\ (v <=? 1)%float = true.

(** What [main] writes before the class scores. *)
Definition dimension_lines : list string :=
  ["After conv1: 3 channels 28x28" ++ newline;
   "After pool1: 3 channels 14x14" ++ newline;
   "After conv2: 5 channels 14x14" ++ newline;
   "After pool2: 5 channels 7x7" ++ newline;
   "Flattened size: 245" ++ newline]%string.

(** The number of draws of [main]: the two filter banks with their
    biases, then the two weight matrices with theirs. *)
Definition parameter_count : Z :=
  (3 * 1 * 3 * 3 + 3) + (5 * 3 * 3 * 3 + 5)
  + (128 * 245 + 128) + (10 * 128 + 10).

(** * Basic facts about the embedding *)

Section Basics.

Context {A B : Type}.

Lemma bind_eq_Ok (m : result A) (k : A -> result B) (a : A) :
  m = Ok a -> bind m k = k a.
Proof. intros ->. reflexivity. Qed.

Lemma bind_Ok_inv (m : result A) (k : A -> result B) (b : B) :
  bind m k = Ok b -> exists a, m = Ok a /\ k a = Ok b.
Proof. destruct m as [a|p]; simpl; [eauto | discriminate]. Qed.

Lemma len_nonneg (s : list A) : 0 <= len s.
Proof. unfold len; lia. Qed.

Lemma index_Ok (s : list A) (i : Z) (v : A) :
  index s i = Ok v <-> 0 <= i /\ s !! Z.to_nat i = Some v.
Proof.
  unfold index. destruct (Z.ltb_spec i 0).
  - split; [discriminate | lia].
  - destruct (s !! Z.to_nat i) eqn:E; split.
    + intros [= ->]; auto.
    + intros [_ [= ->]]; reflexivity.
    + discriminate.
    + intros [_ [=]].
Qed.

Lemma index_in_range (s : list A) (i : Z) :
  0 <= i < len s -> exists v, index s i = Ok v.
Proof.
  intros Hi. destruct (lookup_lt_is_Some_2 s (Z.to_nat i)) as [v Hv].
  { unfold len in Hi; lia. }
  exists v. apply index_Ok; split; [lia | exact Hv].
Qed.

Lemma index_Ok_range (s : list A) (i : Z) (v : A) :
  index s i = Ok v -> 0 <= i < len s.
Proof.
  intros [Hi Hv]%index_Ok. apply lookup_lt_Some in Hv. unfold len; lia.
Qed.

Lemma index_out_of_range_panic (s : list A) (i : Z) :
  ~ (0 <= i < len s) -> index s i = Panic index_out_of_range.
Proof.
  intros Hi. unfold index. destruct (Z.ltb_spec i 0); [reflexivity|].
  rewrite lookup_ge_None_2; [reflexivity|]. unfold len in Hi; lia.
Qed.

Lemma index_of_nat (s : list A) (k : nat) (v : A) :
  s !! k = Some v -> index s (Z.of_nat k) = Ok v.
Proof. intros H. apply index_Ok. rewrite Nat2Z.id. split; [lia | exact H]. Qed.

Lemma store_in_range (s : list A) (i : Z) (v : A) :
  0 <= i < len s -> store s i v = Ok (<[Z.to_nat i := v]> s).
Proof.
  intros Hi. unfold store.
  destruct (Z.leb_spec 0 i); [|lia]. destruct (Z.ltb_spec i (len s)); [|lia].
  reflexivity.
Qed.

Lemma store_Ok (s s' : list A) (i : Z) (v : A) :
  store s i v = Ok s' <-> 0 <= i < len s /\ s' = <[Z.to_nat i := v]> s.
Proof.
  unfold store.
  destruct (Z.leb_spec 0 i); destruct (Z.ltb_spec i (len s)); simpl;
    split; try discriminate; try (intros [? _]; lia).
  - intros [= <-]. auto.
  - intros [_ ->]. reflexivity.
Qed.

Lemma store_len (s s' : list A) (i : Z) (v : A) :
  store s i v = Ok s' -> len s' = len s.
Proof.
  intros [_ ->]%store_Ok. unfold len. rewrite length_insert. reflexivity.
Qed.

Lemma index_store_eq (s s' : list A) (i : Z) (v : A) :
  store s i v = Ok s' -> index s' i = Ok v.
Proof.
  intros [Hi ->]%store_Ok. apply index_Ok. split; [lia|].
  apply list_lookup_insert_eq. unfold len in Hi; lia.
Qed.

Lemma index_store_ne (s s' : list A) (i j : Z) (v : A) :
  store s i v = Ok s' -> i <> j -> index s' j = index s j.
Proof.
  intros [Hi ->]%store_Ok Hne. unfold index.
  destruct (Z.ltb_spec j 0); [reflexivity|].
  rewrite list_lookup_insert_ne by lia. reflexivity.
Qed.

Lemma make_nonneg (z : A) (n : Z) :
  0 <= n -> make z n = Ok (replicate (Z.to_nat n) z).
Proof. intros Hn. unfold make. destruct (Z.ltb_spec n 0); [lia | reflexivity]. Qed.

Lemma make_negative (z : A) (n : Z) :
  n < 0 -> make z n = Panic makeslice_len_out_of_range.
Proof. intros Hn. unfold make. destruct (Z.ltb_spec n 0); [reflexivity | lia]. Qed.

Lemma make_Ok (z : A) (n : Z) (s : list A) :
  make z n = Ok s -> 0 <= n /\ s = replicate (Z.to_nat n) z.
Proof.
  unfold make. destruct (Z.ltb_spec n 0); [discriminate|].
  intros [= <-]. auto.
Qed.

Lemma index_replicate (z : A) (n : nat) (i : Z) :
  0 <= i < Z.of_nat n -> index (replicate n z) i = Ok z.
Proof.
  intros Hi. apply index_Ok. split; [lia|].
  apply lookup_replicate. split; [reflexivity | lia].
Qed.

Lemma len_replicate (z : A) (n : nat) : len (replicate n z) = Z.of_nat n.
Proof. unfold len. rewrite length_replicate. reflexivity. Qed.

End Basics.

Module GoIntFacts.
Import GoInt.

Lemma wrap_in_range (z : Z) : in_range z -> wrap z = z.
Proof.
  unfold in_range, min_int, max_int, wrap. intros Hz.
  rewrite Z.mod_small by lia. lia.
Qed.

Lemma add_in_range (a b : Z) : in_range (a + b) -> add a b = a + b.
Proof. apply wrap_in_range. Qed.

Lemma sub_in_range (a b : Z) : in_range (a - b) -> sub a b = a - b.
Proof. apply wrap_in_range. Qed.

Lemma mul_in_range (a b : Z) : in_range (a * b) -> mul a b = a * b.
Proof. apply wrap_in_range. Qed.

Lemma div_nonneg (a b : Z) :
  0 <= a <= max_int -> 1 <= b -> div a b = Ok (a / b).
Proof.
  intros Ha Hb. unfold div. destruct (Z.eqb_spec b 0); [lia|].
  rewrite Z.quot_div_nonneg by lia.
  rewrite wrap_in_range; [reflexivity|].
  assert (0 <= a / b) by (apply Z.div_pos; lia).
  assert (a / b <= a) by (apply Z.div_le_upper_bound; nia).
  unfold in_range, min_int, max_int in *. lia.
Qed.

End GoIntFacts.

(** * Shape arithmetic *)

Lemma output_size_numerator (n s : Z) : 1 <= s -> 1 <= n / s + 1 -> 0 <= n.
Proof.
  intros Hs Hq. destruct (Z.lt_ge_cases n 0) as [Hneg|]; [|assumption].
  assert (n / s < 0) by (apply Z.div_lt_upper_bound; lia). lia.
Qed.

Lemma conv_out_dim_spec (inputSize kernelSize stride padding : Z) :
  0 <= inputSize -> 1 <= kernelSize -> 1 <= stride -> 0 <= padding ->
  inputSize + 2 * padding <= GoInt.max_int ->
  kernelSize <= inputSize + 2 * padding ->
  ConvLayer.out_dim inputSize padding kernelSize stride
  = Ok (output_size inputSize kernelSize stride padding).
Proof.
  intros Hn Hk Hs Hp Hfit Hpos.
  unfold ConvLayer.out_dim, output_size.
  assert (Hmax : GoInt.max_int = 2 ^ 63 - 1) by reflexivity.
  assert (Hmin : GoInt.min_int = - 2 ^ 63) by reflexivity.
  rewrite (GoIntFacts.mul_in_range 2 padding)
    by (unfold GoInt.in_range; lia).
  rewrite GoIntFacts.add_in_range by (unfold GoInt.in_range; lia).
  rewrite GoIntFacts.sub_in_range by (unfold GoInt.in_range; lia).
  rewrite GoIntFacts.div_nonneg by lia. simpl.
  set (n := inputSize + 2 * padding - kernelSize).
  assert (0 <= n / stride) by (apply Z.div_pos; lia).
  assert (n / stride <= n) by (apply Z.div_le_upper_bound; nia).
  rewrite GoIntFacts.add_in_range by (unfold GoInt.in_range; lia).
  reflexivity.
Qed.

Lemma pool_out_dim_spec (inputSize poolSize stride : Z) :
  0 <= inputSize <= GoInt.max_int -> 1 <= poolSize -> 1 <= stride ->
  poolSize <= inputSize ->
  MaxPoolLayer.out_dim inputSize poolSize stride
  = Ok (output_size inputSize poolSize stride 0).
Proof.
  intros Hn Hk Hs Hpos.
  unfold MaxPoolLayer.out_dim, output_size.
  assert (Hmax : GoInt.max_int = 2 ^ 63 - 1) by reflexivity.
  assert (Hmin : GoInt.min_int = - 2 ^ 63) by reflexivity.
  rewrite GoIntFacts.sub_in_range by (unfold GoInt.in_range; lia).
  rewrite GoIntFacts.div_nonneg by lia. simpl.
  replace (inputSize + 2 * 0 - poolSize) with (inputSize - poolSize) by lia.
  set (n := inputSize - poolSize).
  assert (0 <= n / stride) by (apply Z.div_pos; lia).
  assert (n / stride <= n) by (apply Z.div_le_upper_bound; nia).
  rewrite GoIntFacts.add_in_range by (unfold GoInt.in_range; lia).
  reflexivity.
Qed.

Lemma output_size_ge_1 (inputSize kernelSize stride padding : Z) :
  1 <= stride ->
  (1 <= output_size inputSize kernelSize stride padding
   <-> kernelSize <= inputSize + 2 * padding).
Proof.
  intros Hs. unfold output_size. split.
  - intros H. apply output_size_numerator in H; lia.
  - intros H.
    assert (0 <= (inputSize + 2 * padding - kernelSize) / stride)
      by (apply Z.div_pos; lia).
    lia.
Qed.

(** * Reasoning about counted loops *)

Section Loops.

Context {S : Type}.
Implicit Types (body : Z -> S -> result S) (s : S) (n : nat) (i : Z).


(** Total correctness: an invariant that every iteration re-establishes
    while returning normally carries over the whole loop, and the loop
    returns. *)
Lemma for_loop_inv (Inv : Z -> S -> Prop) body n i s :
  Inv i s ->
  (forall j t, i <= j < i + Z.of_nat n -> Inv j t ->
     exists t', body j t = Ok t' /\ Inv (j + 1) t') ->
  exists s', for_loop n i body s = Ok s' /\ Inv (i + Z.of_nat n) s'.
Proof.
  revert i s. induction n as [|n IH]; intros i s H0 Hstep.
  - exists s. simpl. rewrite Z.add_0_r. auto.
  - destruct (Hstep i s ltac:(lia) H0) as (s1 & Hb & H1).
    destruct (IH (i + 1) s1 H1) as (s' & Hl & H').
    { intros j t Hj. apply Hstep. lia. }
    exists s'. simpl. rewrite Hb. simpl. split; [exact Hl|].
    replace (i + Z.of_nat (Datatypes.S n)) with (i + 1 + Z.of_nat n) by lia.
    exact H'.
Qed.

Lemma for_upto_inv (Inv : Z -> S -> Prop) body (n : Z) s :
  0 <= n ->
  Inv 0 s ->
  (forall j t, 0 <= j < n -> Inv j t ->
     exists t', body j t = Ok t' /\ Inv (j + 1) t') ->
  exists s', for_upto n body s = Ok s' /\ Inv n s'.
Proof.
  intros Hn H0 Hstep.
  destruct (for_loop_inv Inv body (Z.to_nat n) 0 s H0) as (s' & Hl & H').
  { intros j t Hj. apply Hstep. lia. }
  exists s'. split; [exact Hl|].
  replace n with (0 + Z.of_nat (Z.to_nat n)) by lia. exact H'.
Qed.

(** Partial correctness: a property that every normally returning
    iteration preserves holds of whatever the loop returns. *)
Lemma for_loop_preserves (P : S -> Prop) body n i s s' :
  (forall j t t', P t -> body j t = Ok t' -> P t') ->
  P s -> for_loop n i body s = Ok s' -> P s'.
Proof.
  intros Hstep. revert i s. induction n as [|n IH]; intros i s H0 Hl.
  - simpl in Hl. injection Hl as <-. exact H0.
  - simpl in Hl. apply bind_Ok_inv in Hl as (s1 & Hb & Hl).
    eapply IH; [|exact Hl]. eapply Hstep; eassumption.
Qed.

Lemma for_upto_preserves (P : S -> Prop) body (n : Z) s s' :
  (forall j t t', P t -> body j t = Ok t' -> P t') ->
  P s -> for_upto n body s = Ok s' -> P s'.
Proof. apply for_loop_preserves. Qed.

Lemma for_upto_nonpos body (n : Z) s : n <= 0 -> for_upto n body s = Ok s.
Proof.
  intros Hn. unfold for_upto. replace (Z.to_nat n) with O by lia. reflexivity.
Qed.

Lemma for_upto_first body (n : Z) s :
  1 <= n ->
  for_upto n body s
  = (s' <- body 0 s ;; for_loop (Z.to_nat (n - 1)) 1 body s').
Proof.
  intros Hn. unfold for_upto.
  replace (Z.to_nat n) with (Datatypes.S (Z.to_nat (n - 1))) by lia.
  reflexivity.
Qed.

Lemma for_upto_first_panic body (n : Z) s p :
  1 <= n -> body 0 s = Panic p -> for_upto n body s = Panic p.
Proof. intros Hn Hb. rewrite for_upto_first by exact Hn. rewrite Hb. reflexivity. Qed.


(** A loop whose iterations all return normally with a result that is a
    function of the state folds that function over the index range. *)
Lemma for_loop_fold (g : Z -> S -> S) body n i s :
  (forall j t, i <= j < i + Z.of_nat n -> body j t = Ok (g j t)) ->
  for_loop n i body s
  = Ok (fold_left (fun t j => g j t) (seqZ i (Z.of_nat n)) s).
Proof.
  revert i s. induction n as [|n IH]; intros i s Hb.
  - reflexivity.
  - simpl for_loop. rewrite Hb by lia. simpl bind.
    rewrite IH by (intros; apply Hb; lia).
    rewrite (seqZ_cons i) by lia. simpl.
    do 3 f_equal; lia.
Qed.

Lemma for_upto_fold (g : Z -> S -> S) body (n : Z) s :
  (forall j t, 0 <= j < n -> body j t = Ok (g j t)) ->
  for_upto n body s = Ok (fold_left (fun t j => g j t) (seqZ 0 n) s).
Proof.
  intros Hb. unfold for_upto.
  rewrite (for_loop_fold g) by (intros; apply Hb; lia).
  destruct (Z.le_gt_cases 0 n).
  - rewrite Z2Nat.id by assumption. reflexivity.
  - replace (Z.to_nat n) with O by lia. simpl.
    rewrite seqZ_nil by lia. reflexivity.
Qed.

End Loops.

Lemma fold_left_bind {A B C : Type} (f : A -> C -> A) (g : B -> list C)
  (l : list B) (a : A) :
  fold_left f (l ≫= g) a = fold_left (fun a x => fold_left f (g x) a) l a.
Proof.
  revert a. induction l as [|x l IH]; intros a; [reflexivity|].
  rewrite bind_cons, fold_left_app. simpl. apply IH.
Qed.

Lemma fold_left_ext_in {A B : Type} (f g : A -> B -> A) (l : list B) (a : A) :
  (forall x b, b ∈ l -> f x b = g x b) -> fold_left f l a = fold_left g l a.
Proof.
  revert a. induction l as [|b l IH]; intros a H; [reflexivity|].
  simpl. rewrite H by left. apply IH. intros x c Hc. apply H. right. exact Hc.
Qed.

(** * Rectangular grids and tensors *)

Lemma rect2_index (g : Grid2D) (h w i : Z) (r : list float64) :
  rect2 g h w -> index g i = Ok r -> len r = w.
Proof.
  intros [_ Hall] [_ Hr]%index_Ok.
  exact (proj1 (Forall_lookup _ _) Hall _ _ Hr).
Qed.

Lemma rect3_index (t : Tensor3D) (c h w i : Z) (g : Grid2D) :
  rect3 t c h w -> index t i = Ok g -> rect2 g h w.
Proof.
  intros [_ Hall] [_ Hg]%index_Ok.
  exact (proj1 (Forall_lookup _ _) Hall _ _ Hg).
Qed.

Lemma rect4_index (fb : list Tensor3D) (n c h w i : Z) (t : Tensor3D) :
  rect4 fb n c h w -> index fb i = Ok t -> rect3 t c h w.
Proof.
  intros [_ Hall] [_ Ht]%index_Ok.
  exact (proj1 (Forall_lookup _ _) Hall _ _ Ht).
Qed.

Lemma rect2_store (g g' : Grid2D) (h w i : Z) (r : list float64) :
  rect2 g h w -> len r = w -> store g i r = Ok g' -> rect2 g' h w.
Proof.
  intros [Hlen Hall] Hr Hst. split.
  - rewrite (store_len _ _ _ _ Hst). exact Hlen.
  - apply store_Ok in Hst as [_ ->]. apply Forall_insert; assumption.
Qed.

Lemma rect3_store (t t' : Tensor3D) (c h w i : Z) (g : Grid2D) :
  rect3 t c h w -> rect2 g h w -> store t i g = Ok t' -> rect3 t' c h w.
Proof.
  intros [Hlen Hall] Hg Hst. split.
  - rewrite (store_len _ _ _ _ Hst). exact Hlen.
  - apply store_Ok in Hst as [_ ->]. apply Forall_insert; assumption.
Qed.

Lemma at2_in_range (g : Grid2D) (h w i j : Z) :
  rect2 g h w -> 0 <= i < h -> 0 <= j < w -> exists v, at2 g i j = Ok v.
Proof.
  intros Hg Hi Hj. unfold at2.
  destruct (index_in_range g i) as [r Hr]; [destruct Hg; lia|].
  rewrite Hr. simpl. apply index_in_range.
  rewrite (rect2_index _ _ _ _ _ Hg Hr). exact Hj.
Qed.

Lemma at3_in_range (t : Tensor3D) (n h w c i j : Z) :
  rect3 t n h w -> 0 <= c < n -> 0 <= i < h -> 0 <= j < w ->
  exists v, at3 t c i j = Ok v.
Proof.
  intros Ht Hc Hi Hj. unfold at3.
  destruct (index_in_range t c) as [g Hg]; [destruct Ht; lia|].
  rewrite Hg. simpl. eapply at2_in_range; eauto using rect3_index.
Qed.

Lemma at4_in_range (fb : list Tensor3D) (n c h w f k i j : Z) :
  rect4 fb n c h w -> 0 <= f < n -> 0 <= k < c -> 0 <= i < h -> 0 <= j < w ->
  exists v, at4 fb f k i j = Ok v.
Proof.
  intros Hfb Hf Hk Hi Hj. unfold at4.
  destruct (index_in_range fb f) as [t Ht]; [destruct Hfb; lia|].
  rewrite Ht. simpl. eapply at3_in_range; eauto using rect4_index.
Qed.

(** [output[f][y][x] = v] on a rectangular tensor: it returns normally,
    keeps the shape, sets that cell and no other. *)
Lemma store3_spec (t : Tensor3D) (n h w f y x : Z) (v : float64) :
  rect3 t n h w -> 0 <= f < n -> 0 <= y < h -> 0 <= x < w ->
  exists t', store3 t f y x v = Ok t'
    /\ rect3 t' n h w
    /\ at3 t' f y x = Ok v
    /\ (forall f' y' x', f' <> f \/ y' <> y \/ x' <> x ->
          at3 t' f' y' x' = at3 t f' y' x').
Proof.
  intros Ht Hf Hy Hx. unfold store3.
  destruct (index_in_range t f) as [ch Hch]; [destruct Ht; lia|].
  pose proof (rect3_index _ _ _ _ _ _ Ht Hch) as Hrc.
  destruct (index_in_range ch y) as [row Hrow]; [destruct Hrc; lia|].
  pose proof (rect2_index _ _ _ _ _ Hrc Hrow) as Hlr.
  rewrite Hch. simpl. rewrite Hrow. simpl.
  destruct (store row x v) as [row'|] eqn:Hs1;
    [|rewrite store_in_range in Hs1 by lia; discriminate].
  destruct (store ch y row') as [ch'|] eqn:Hs2;
    [|rewrite store_in_range in Hs2 by (destruct Hrc; lia); discriminate].
  destruct (store t f ch') as [t'|] eqn:Hs3;
    [|rewrite store_in_range in Hs3 by (destruct Ht; lia); discriminate].
  simpl. rewrite Hs2. simpl. rewrite Hs3. exists t'.
  assert (Hrc' : rect2 ch' h w).
  { eapply rect2_store; [exact Hrc| |exact Hs2].
    rewrite (store_len _ _ _ _ Hs1). exact Hlr. }
  split; [reflexivity|]. split; [eapply rect3_store; eassumption|]. split.
  - unfold at3, at2. rewrite (index_store_eq _ _ _ _ Hs3). simpl.
    rewrite (index_store_eq _ _ _ _ Hs2). simpl.
    exact (index_store_eq _ _ _ _ Hs1).
  - intros f' y' x' Hne. unfold at3.
    destruct (Z.eq_dec f' f) as [->|Hf'];
      [|rewrite (index_store_ne _ _ _ _ _ Hs3) by congruence; reflexivity].
    rewrite (index_store_eq _ _ _ _ Hs3), Hch. simpl. unfold at2.
    destruct (Z.eq_dec y' y) as [->|Hy'];
      [|rewrite (index_store_ne _ _ _ _ _ Hs2) by congruence; reflexivity].
    rewrite (index_store_eq _ _ _ _ Hs2), Hrow. simpl.
    apply (index_store_ne _ _ _ _ _ Hs1). intros ->. destruct Hne as [?|[?|?]]; congruence.
Qed.

(** Three nested loops that assign [output[f][y][x] = cell f y x] for
    every position of a rectangular tensor return normally, and the
    result holds [cell f y x] at every position. *)
Lemma fill3 (body : Z -> Z -> Z -> Tensor3D -> result Tensor3D)
  (cell : Z -> Z -> Z -> float64) (n h w : Z) (t0 : Tensor3D) :
  0 <= n -> 0 <= h -> 0 <= w ->
  rect3 t0 n h w ->
  (forall f y x t, 0 <= f < n -> 0 <= y < h -> 0 <= x < w ->
     body f y x t = store3 t f y x (cell f y x)) ->
  exists t,
    for_upto n (fun f t =>
      for_upto h (fun y t =>
        for_upto w (fun x t => body f y x t) t) t) t0 = Ok t
    /\ rect3 t n h w
    /\ (forall f y x, 0 <= f < n -> 0 <= y < h -> 0 <= x < w ->
          at3 t f y x = Ok (cell f y x)).
Proof.
  intros Hn Hh Hw Hrect Hbody.
  pose (done (F Y X : Z) (t : Tensor3D) :=
    rect3 t n h w /\
    forall f y x, 0 <= f < n -> 0 <= y < h -> 0 <= x < w ->
      f < F \/ (f = F /\ (y < Y \/ (y = Y /\ x < X))) ->
      at3 t f y x = Ok (cell f y x)).
  assert (Hinner : forall F Y t, 0 <= F < n -> 0 <= Y < h -> done F Y 0 t ->
    exists t', for_upto w (fun x t => body F Y x t) t = Ok t' /\ done F Y w t').
  { intros F Y t HF HY H0.
    apply (for_upto_inv (fun X t => done F Y X t)); [exact Hw|exact H0|].
    intros X t1 HX [Hr Hc]. rewrite Hbody by assumption.
    destruct (store3_spec t1 n h w F Y X (cell F Y X) Hr HF HY HX)
      as (t2 & Hst & Hr2 & Hset & Hother).
    exists t2. split; [exact Hst|]. split; [exact Hr2|].
    intros f y x Hf Hy Hx Hlt.
    destruct (Z.eq_dec f F) as [->|]; [destruct (Z.eq_dec y Y) as [->|];
      [destruct (Z.eq_dec x X) as [->|]|]|].
    - exact Hset.
    - rewrite Hother by auto. apply Hc; auto. lia.
    - rewrite Hother by auto. apply Hc; auto. lia.
    - rewrite Hother by auto. apply Hc; auto. lia. }
  assert (Hmid : forall F t, 0 <= F < n -> done F 0 0 t ->
    exists t', for_upto h (fun y t =>
                 for_upto w (fun x t => body F y x t) t) t = Ok t'
               /\ done (F + 1) 0 0 t').
  { intros F t HF H0.
    destruct (for_upto_inv (fun Y t => done F Y 0 t)
                (fun y t => for_upto w (fun x t => body F y x t) t) h t Hh H0)
      as (t' & Hl & [Hr Hc]).
    - intros Y t1 HY H1. destruct (Hinner F Y t1 HF HY H1) as (t2 & Hl & [Hr Hc]).
      exists t2. split; [exact Hl|]. split; [exact Hr|].
      intros f y x Hf Hy Hx Hlt. apply Hc; auto. lia.
    - exists t'. split; [exact Hl|]. split; [exact Hr|].
      intros f y x Hf Hy Hx Hlt. apply Hc; auto. lia. }
  destruct (for_upto_inv (fun F t => done F 0 0 t)
              (fun f t => for_upto h (fun y t =>
                 for_upto w (fun x t => body f y x t) t) t) n t0 Hn)
    as (t & Hl & [Hr Hc]).
  - split; [exact Hrect|]. intros; lia.
  - intros F t1 HF H1. exact (Hmid F t1 HF H1).
  - exists t. split; [exact Hl|]. split; [exact Hr|].
    intros f y x Hf Hy Hx. apply Hc; auto. lia.
Qed.

(** A loop that assigns [s[i] = val i] for every index of a slice returns
    normally with the slice of those values. *)
Lemma fill1 {A : Type} (body : Z -> list A -> result (list A))
  (val : Z -> A) (n : Z) (s0 : list A) :
  len s0 = n ->
  (forall i s, 0 <= i < n -> body i s = store s i (val i)) ->
  for_upto n body s0 = Ok (val <$> seqZ 0 n).
Proof.
  intros Hlen Hbody.
  assert (Hn : 0 <= n) by (rewrite <- Hlen; apply len_nonneg).
  destruct (for_upto_inv
              (fun i s => s = (val <$> seqZ 0 i) ++ drop (Z.to_nat i) s0)
              body n s0 Hn) as (s' & Hl & ->).
  - reflexivity.
  - intros i s Hi ->. rewrite Hbody by exact Hi.
    assert (Hlen1 : length (val <$> seqZ 0 i) = Z.to_nat i).
    { rewrite length_fmap, length_seqZ. reflexivity. }
    destruct (lookup_lt_is_Some_2 s0 (Z.to_nat i)) as [a Ha].
    { unfold len in Hlen. lia. }
    rewrite store_in_range.
    2:{ unfold len. rewrite length_app, Hlen1, length_drop.
        unfold len in Hlen. lia. }
    eexists. split; [reflexivity|].
    rewrite insert_app_r_alt by lia.
    rewrite Hlen1, Nat.sub_diag.
    rewrite (drop_S _ _ _ Ha). simpl.
    replace (Z.to_nat (i + 1)) with (Datatypes.S (Z.to_nat i)) by lia.
    rewrite (seqZ_app 0 i 1) by lia.
    rewrite fmap_app, <- app_assoc. simpl. reflexivity.
  - rewrite Hl. f_equal.
    rewrite drop_ge by (unfold len in Hlen; lia).
    apply app_nil_r.
Qed.

Lemma index_fmap_seqZ {A : Type} (val : Z -> A) (n i : Z) :
  0 <= i < n -> index (val <$> seqZ 0 n) i = Ok (val i).
Proof.
  intros Hi. apply index_Ok. split; [lia|].
  rewrite list_lookup_fmap, (lookup_seqZ_lt 0 n) by lia.
  simpl. do 2 f_equal. lia.
Qed.

Lemma len_fmap_seqZ {A : Type} (val : Z -> A) (n : Z) :
  0 <= n -> len (val <$> seqZ 0 n) = n.
Proof. intros Hn. unfold len. rewrite length_fmap, length_seqZ. lia. Qed.

Lemma fmap_const_seqZ {A : Type} (a : A) (m n : Z) :
  (fun _ => a) <$> seqZ m n = replicate (Z.to_nat n) a.
Proof.
  unfold seqZ. rewrite <- list_fmap_compose.
  generalize (Z.to_nat n) as k. intros k. generalize 0%nat as j.
  induction k as [|k IH]; intros j; [reflexivity|].
  simpl. f_equal. apply IH.
Qed.

(** ** The allocations *)

Lemma make2D_spec (rows cols : Z) :
  0 <= rows -> 0 <= cols ->
  make2D rows cols
  = Ok (replicate (Z.to_nat rows) (replicate (Z.to_nat cols) 0%float)).
Proof.
  intros Hr Hc. unfold make2D. rewrite make_nonneg by exact Hr. simpl.
  rewrite len_replicate, Z2Nat.id by exact Hr.
  rewrite (fill1 _ (fun _ => replicate (Z.to_nat cols) 0%float) rows).
  - rewrite fmap_const_seqZ. reflexivity.
  - rewrite len_replicate. lia.
  - intros i s Hi. rewrite make_nonneg by exact Hc. reflexivity.
Qed.

Lemma make3D_spec (n outH outW : Z) :
  0 <= n -> 0 <= outH -> 0 <= outW ->
  make3D n outH outW
  = Ok (replicate (Z.to_nat n)
          (replicate (Z.to_nat outH) (replicate (Z.to_nat outW) 0%float))).
Proof.
  intros Hn Hh Hw. unfold make3D. rewrite make_nonneg by exact Hn. simpl.
  rewrite len_replicate, Z2Nat.id by exact Hn.
  rewrite (fill1 _ (fun _ => replicate (Z.to_nat outH)
                               (replicate (Z.to_nat outW) 0%float)) n).
  - rewrite fmap_const_seqZ. reflexivity.
  - rewrite len_replicate. lia.
  - intros i s Hi. rewrite make2D_spec by assumption. reflexivity.
Qed.

Lemma rect2_replicate (h w : Z) (r : list float64) :
  0 <= h -> len r = w -> rect2 (replicate (Z.to_nat h) r) h w.
Proof.
  intros Hh Hr. split.
  - rewrite len_replicate. lia.
  - apply Forall_replicate. exact Hr.
Qed.

Lemma rect3_zeros (n h w : Z) :
  0 <= n -> 0 <= h -> 0 <= w ->
  rect3 (replicate (Z.to_nat n)
           (replicate (Z.to_nat h) (replicate (Z.to_nat w) 0%float))) n h w.
Proof.
  intros Hn Hh Hw. split.
  - rewrite len_replicate. lia.
  - apply Forall_replicate, rect2_replicate; [exact Hh|].
    rewrite len_replicate. lia.
Qed.

(** * Padding *)

Lemma len_pad_row (p : Z) (r : list float64) :
  0 <= p -> len (pad_row p r) = len r + 2 * p.
Proof.
  intros Hp. unfold len, pad_row.
  rewrite !length_app, !length_replicate. lia.
Qed.

Lemma len_zero_row (w : Z) : 0 <= w -> len (zero_row w) = w.
Proof. intros Hw. unfold zero_row. rewrite len_replicate. lia. Qed.

Lemma index_zero_row (w j : Z) :
  0 <= j < w -> index (zero_row w) j = Ok 0%float.
Proof. intros Hj. apply index_replicate. lia. Qed.

Lemma index_pad_row_inside (p j : Z) (r : list float64) :
  0 <= p -> p <= j < p + len r ->
  index (pad_row p r) j = index r (j - p).
Proof.
  intros Hp Hj. unfold index, pad_row.
  destruct (Z.ltb_spec j 0); [lia|]. destruct (Z.ltb_spec (j - p) 0); [lia|].
  rewrite lookup_app_r by (rewrite length_replicate; lia).
  rewrite length_replicate.
  rewrite lookup_app_l by (unfold len in Hj; lia).
  replace (Z.to_nat j - Z.to_nat p)%nat with (Z.to_nat (j - p)) by lia.
  reflexivity.
Qed.

Lemma index_pad_row_outside (p j : Z) (r : list float64) :
  0 <= p -> 0 <= j < len r + 2 * p -> j < p \/ p + len r <= j ->
  index (pad_row p r) j = Ok 0%float.
Proof.
  intros Hp Hj Hout. apply index_Ok. split; [lia|]. unfold pad_row.
  unfold len in *. destruct Hout as [Hl|Hr].
  - rewrite lookup_app_l by (rewrite length_replicate; lia).
    apply lookup_replicate. split; [reflexivity|lia].
  - rewrite lookup_app_r by (rewrite length_replicate; lia).
    rewrite lookup_app_r by (rewrite length_replicate; lia).
    apply lookup_replicate. split; [reflexivity|].
    rewrite length_replicate. lia.
Qed.

(** [copy(dst[p:], src)] into a fresh row of [len(src) + 2p] zeros. *)
Lemma copy_from_zero_row (p w : Z) (src : list float64) :
  0 <= p -> len src = w ->
  copy_from (zero_row (w + 2 * p)) p src = Ok (pad_row p src).
Proof.
  intros Hp Hw. unfold copy_from.
  assert (Hw0 : 0 <= w) by (rewrite <- Hw; apply len_nonneg).
  rewrite len_zero_row by lia.
  destruct (Z.leb_spec 0 p); [|lia]. destruct (Z.leb_spec p (w + 2 * p)); [|lia].
  simpl. f_equal. unfold zero_row, pad_row. unfold len in Hw.
  rewrite length_replicate.
  rewrite (Nat.min_r _ (length src)) by lia.
  rewrite take_replicate, drop_replicate, firstn_all.
  f_equal; [f_equal; lia|]. do 2 f_equal. lia.
Qed.

(** The rows of the padded grid when the padding is positive. *)
Lemma pad2D_rows (input : Grid2D) (h w p : Z) :
  rect2 input h w -> 1 <= h -> 1 <= p ->
  h + 2 * p <= GoInt.max_int -> w + 2 * p <= GoInt.max_int ->
  exists padded,
    pad2D input p = Ok padded
    /\ len padded = h + 2 * p
    /\ forall k, 0 <= k < h + 2 * p ->
         (p <= k < p + h ->
            exists r, index input (k - p) = Ok r
                      /\ index padded k = Ok (pad_row p r))
         /\ (~ (p <= k < p + h) -> index padded k = Ok (zero_row (w + 2 * p))).
Proof.
  intros Hrect Hh Hp Hfh Hfw.
  assert (Hmax : GoInt.max_int = 2 ^ 63 - 1) by reflexivity.
  assert (Hmin : GoInt.min_int = - 2 ^ 63) by reflexivity.
  assert (Hw : 0 <= w).
  { destruct (index_in_range input 0) as [r Hr]; [destruct Hrect; lia|].
    rewrite <- (rect2_index _ _ _ _ _ Hrect Hr). apply len_nonneg. }
  unfold pad2D. destruct (Z.eqb_spec p 0); [lia|].
  destruct (index_in_range input 0) as [in0 Hin0]; [destruct Hrect; lia|].
  rewrite Hin0. simpl.
  rewrite (rect2_index _ _ _ _ _ Hrect Hin0).
  destruct Hrect as [Hlen Hall]. rewrite Hlen.
  rewrite (GoIntFacts.mul_in_range 2 p) by (unfold GoInt.in_range; lia).
  rewrite !GoIntFacts.add_in_range by (unfold GoInt.in_range; lia).
  rewrite make2D_spec by lia. simpl.
  fold (zero_row (w + 2 * p)).
  set (zr := zero_row (w + 2 * p)).
  apply (for_upto_inv (fun i padded =>
           len padded = h + 2 * p
           /\ forall k, 0 <= k < h + 2 * p ->
                (p <= k < p + i ->
                   exists r, index input (k - p) = Ok r
                             /\ index padded k = Ok (pad_row p r))
                /\ (~ (p <= k < p + i) -> index padded k = Ok zr))).
  - lia.
  - split; [rewrite len_replicate; lia|].
    intros k Hk. split; [lia|]. intros _. apply index_replicate. lia.
  - intros i padded Hi [Hlp Hinv].
    rewrite GoIntFacts.add_in_range by (unfold GoInt.in_range; lia).
    destruct (Hinv (i + p) ltac:(lia)) as [_ Hdst].
    rewrite Hdst by lia. simpl.
    destruct (index_in_range input i) as [src Hsrc]; [lia|].
    rewrite Hsrc. simpl.
    assert (Hls : len src = w).
    { apply index_Ok in Hsrc as [_ Hsrc].
      exact (proj1 (Forall_lookup _ _) Hall _ _ Hsrc). }
    unfold zr. rewrite copy_from_zero_row by (assumption || lia). simpl.
    destruct (store padded (i + p) (pad_row p src)) as [padded'|] eqn:Hst;
      [|rewrite store_in_range in Hst by lia; discriminate].
    exists padded'. split; [reflexivity|]. split.
    + rewrite (store_len _ _ _ _ Hst). exact Hlp.
    + intros k Hk. destruct (Z.eq_dec k (i + p)) as [->|Hne].
      * split; [|lia]. intros _. exists src.
        replace (i + p - p) with i by lia.
        split; [exact Hsrc|]. exact (index_store_eq _ _ _ _ Hst).
      * rewrite (index_store_ne _ _ _ _ _ Hst) by congruence.
        destruct (Hinv k Hk) as [Hin Hout]. split.
        -- intros Hk'. apply Hin. lia.
        -- intros Hk'. apply Hout. lia.
Qed.

Lemma value_at2_out_of_range (g : Grid2D) (h w i j : Z) :
  rect2 g h w -> ~ (0 <= i < h /\ 0 <= j < w) -> value (at2 g i j) = 0%float.
Proof.
  intros Hg Hout. unfold at2.
  destruct (index g i) as [r|] eqn:Hr; [|reflexivity]. simpl.
  destruct (index r j) as [v|] eqn:Hv; [|reflexivity].
  exfalso. apply Hout.
  pose proof (index_Ok_range _ _ _ Hr). pose proof (index_Ok_range _ _ _ Hv).
  rewrite (rect2_index _ _ _ _ _ Hg Hr) in *. destruct Hg. lia.
Qed.

(** Cell by cell: the grid [pad2D] returns is the input surrounded by
    zeros. *)
Lemma pad2D_cells (input : Grid2D) (h w p : Z) :
  rect2 input h w -> 1 <= h \/ p = 0 -> 0 <= p ->
  h + 2 * p <= GoInt.max_int -> w + 2 * p <= GoInt.max_int ->
  exists padded,
    pad2D input p = Ok padded
    /\ rect2 padded (h + 2 * p) (w + 2 * p)
    /\ forall i j, 0 <= i < h + 2 * p -> 0 <= j < w + 2 * p ->
         at2 padded i j = Ok (value (at2 input (i - p) (j - p))).
Proof.
  intros Hrect Hh Hp Hfh Hfw.
  destruct (Z.eq_dec p 0) as [->|Hp0].
  - exists input. split; [reflexivity|].
    replace (h + 2 * 0) with h by lia. replace (w + 2 * 0) with w by lia.
    split; [exact Hrect|]. intros i j Hi Hj. rewrite !Z.sub_0_r.
    destruct (at2_in_range _ _ _ i j Hrect Hi Hj) as [v ->]. reflexivity.
  - destruct (pad2D_rows input h w p Hrect) as (padded & Hpad & Hlen & Hrows);
      try lia.
    assert (Hw : 0 <= w).
    { destruct (index_in_range input 0) as [r Hr]; [destruct Hrect; lia|].
      rewrite <- (rect2_index _ _ _ _ _ Hrect Hr). apply len_nonneg. }
    exists padded. split; [exact Hpad|]. split.
    + split; [exact Hlen|]. apply Forall_lookup. intros k r Hk.
      assert (Hkr : 0 <= Z.of_nat k < h + 2 * p).
      { apply lookup_lt_Some in Hk. unfold len in Hlen. lia. }
      apply index_of_nat in Hk.
      destruct (Hrows _ Hkr) as [Hin Hout].
      destruct (Z.le_gt_cases p (Z.of_nat k)) as [H1|H1];
        [destruct (Z.lt_ge_cases (Z.of_nat k) (p + h)) as [H2|H2]|].
      * destruct (Hin ltac:(lia)) as (r0 & Hr0 & Hpk).
        rewrite Hk in Hpk. injection Hpk as ->.
        rewrite len_pad_row by lia.
        rewrite (rect2_index _ _ _ _ _ Hrect Hr0). reflexivity.
      * rewrite Hout in Hk by lia. injection Hk as <-.
        apply len_zero_row. lia.
      * rewrite Hout in Hk by lia. injection Hk as <-.
        apply len_zero_row. lia.
    + intros i j Hi Hj. destruct (Hrows _ Hi) as [Hin Hout]. unfold at2 at 1.
      destruct (Z.le_gt_cases p i) as [H1|H1];
        [destruct (Z.lt_ge_cases i (p + h)) as [H2|H2]|].
      * destruct (Hin ltac:(lia)) as (r & Hr & Hpk). rewrite Hpk. simpl.
        pose proof (rect2_index _ _ _ _ _ Hrect Hr) as Hlr.
        unfold at2. rewrite Hr. simpl.
        destruct (Z.le_gt_cases p j) as [H3|H3];
          [destruct (Z.lt_ge_cases j (p + w)) as [H4|H4]|].
        -- rewrite index_pad_row_inside by lia.
           destruct (index_in_range r (j - p)) as [v ->]; [lia|]. reflexivity.
        -- rewrite index_pad_row_outside by lia.
           rewrite index_out_of_range_panic by lia. reflexivity.
        -- rewrite index_pad_row_outside by lia.
           rewrite index_out_of_range_panic by lia. reflexivity.
      * rewrite Hout by lia. simpl. rewrite index_zero_row by lia.
        rewrite (value_at2_out_of_range _ _ _ _ _ Hrect) by lia. reflexivity.
      * rewrite Hout by lia. simpl. rewrite index_zero_row by lia.
        rewrite (value_at2_out_of_range _ _ _ _ _ Hrect) by lia. reflexivity.
Qed.

(** * Floating-point facts *)



(** * Sums *)

Lemma sum_from_bind3 (term : Z -> Z -> Z -> float64) (l1 l2 l3 : list Z)
  (a : float64) :
  sum_from a (c ← l1; ky ← l2; kx ← l3; [term c ky kx])
  = fold_left (fun a c =>
      fold_left (fun a ky =>
        fold_left (fun a kx => (a + term c ky kx)%float) l3 a) l2 a) l1 a.
Proof.
  unfold sum_from. rewrite fold_left_bind.
  apply fold_left_ext_in. intros a1 c _.
  rewrite fold_left_bind.
  apply fold_left_ext_in. intros a2 ky _.
  rewrite fold_left_bind. reflexivity.
Qed.

Lemma at2_Ok (g : Grid2D) (i j : Z) (v : float64) :
  at2 g i j = Ok v <-> exists r, index g i = Ok r /\ index r j = Ok v.
Proof.
  unfold at2. split.
  - intros H. apply bind_Ok_inv in H. exact H.
  - intros (r & -> & Hv). exact Hv.
Qed.

Lemma at3_Ok (t : Tensor3D) (c i j : Z) (v : float64) :
  at3 t c i j = Ok v <-> exists g, index t c = Ok g /\ at2 g i j = Ok v.
Proof.
  unfold at3. split.
  - intros H. apply bind_Ok_inv in H. exact H.
  - intros (g & -> & Hv). exact Hv.
Qed.

Lemma at4_Ok (fb : list Tensor3D) (f c i j : Z) (v : float64) :
  at4 fb f c i j = Ok v <-> exists t, index fb f = Ok t /\ at3 t c i j = Ok v.
Proof.
  unfold at4. split.
  - intros H. apply bind_Ok_inv in H. exact H.
  - intros (t & -> & Hv). exact Hv.
Qed.

(** The last window of an output row or column stays inside the padded
    input. *)
Lemma window_in_bounds (n k s y : Z) :
  1 <= s -> k <= n -> 0 <= y < output_size n k s 0 ->
  0 <= y * s /\ y * s + k <= n.
Proof.
  unfold output_size. intros Hs Hk Hy.
  replace (n + 2 * 0 - k) with (n - k) in Hy by lia.
  assert (s * ((n - k) / s) <= n - k) by (apply Z.mul_div_le; lia).
  nia.
Qed.

Lemma output_size_shift (n k s p : Z) :
  output_size n k s p = output_size (n + 2 * p) k s 0.
Proof. unfold output_size. f_equal. f_equal. lia. Qed.

Lemma output_size_pos (n k s p : Z) :
  1 <= s -> k <= n + 2 * p -> 1 <= output_size n k s p.
Proof. intros Hs Hk. apply output_size_ge_1; assumption. Qed.

(** * The convolutional layer on well-formed data *)

Section Conv.

Variables (cl : ConvLayer.t) (input : Tensor3D).
Variables (numFilters filterChannels kernelH kernelW : Z).
Variables (inChannels inputH inputW : Z).

Let stride := ConvLayer.Stride cl.
Let padding := ConvLayer.Padding cl.
Let outH := output_size inputH kernelH stride padding.
Let outW := output_size inputW kernelW stride padding.
Let padded_ok := padded_channels_ok input padding inChannels inputH inputW.
Let conv_loops :=
  conv_loops_from cl numFilters outH outW inChannels kernelH kernelW.

Hypothesis Hfilters :
  rect4 (ConvLayer.Filters cl) numFilters filterChannels kernelH kernelW.
Hypothesis Hinput : rect3 input inChannels inputH inputW.
Hypothesis HnumFilters : 1 <= numFilters.
Hypothesis HfilterChannels1 : 1 <= filterChannels.
Hypothesis HkernelH : 1 <= kernelH.
Hypothesis HkernelW : 1 <= kernelW.
Hypothesis HinChannels : 1 <= inChannels.
Hypothesis HinputH : 1 <= inputH.
Hypothesis Hstride : 1 <= stride.
Hypothesis Hpadding : 0 <= padding.
Hypothesis HfitH : inputH + 2 * padding <= GoInt.max_int.
Hypothesis HfitW : inputW + 2 * padding <= GoInt.max_int.
Hypothesis HsizeH : kernelH <= inputH + 2 * padding.
Hypothesis HsizeW : kernelW <= inputW + 2 * padding.

Lemma padded_loop :
  exists padded,
    for_upto inChannels
      (fun c padded =>
         ic <- index input c ;;
         p <- pad2D ic padding ;;
         store padded c p)
      (replicate (Z.to_nat inChannels) []) = Ok padded
    /\ padded_ok padded.
Proof using All.
  pose (grid := fun c : Z =>
    match index input c with
    | Ok ic => match pad2D ic padding with Ok g => g | Panic _ => [] end
    | Panic _ => []
    end).
  assert (Hgrid : forall c, 0 <= c < inChannels ->
    exists ic g, index input c = Ok ic /\ pad2D ic padding = Ok g
      /\ grid c = g
      /\ forall i j, 0 <= i < inputH + 2 * padding ->
                     0 <= j < inputW + 2 * padding ->
           at2 g i j = Ok (padded_input input padding c i j)).
  { intros c Hc.
    destruct (index_in_range input c) as [ic Hic]; [destruct Hinput; lia|].
    pose proof (rect3_index _ _ _ _ _ _ Hinput Hic) as Hrc.
    destruct (pad2D_cells ic inputH inputW padding Hrc)
      as (g & Hg & _ & Hcells); try lia.
    exists ic, g. split; [exact Hic|]. split; [exact Hg|]. split.
    - unfold grid. rewrite Hic, Hg. reflexivity.
    - intros i j Hi Hj. rewrite (Hcells i j Hi Hj).
      unfold padded_input, at3. rewrite Hic. reflexivity. }
  exists (grid <$> seqZ 0 inChannels). split.
  - apply fill1.
    + rewrite len_replicate. lia.
    + intros c s Hc. destruct (Hgrid c Hc) as (ic & g & -> & Hg & <- & _).
      simpl. rewrite Hg. reflexivity.
  - intros c Hc. destruct (Hgrid c Hc) as (ic & g & _ & _ & Hgc & Hcells).
    exists g. split; [|exact Hcells].
    rewrite index_fmap_seqZ by exact Hc. rewrite Hgc. reflexivity.
Qed.

(** The accumulation for one output cell returns the sum of the
    specification, taken in the order of the loops. *)
Lemma window_sum_spec (padded : Tensor3D) (channels f y x : Z) :
  padded_ok padded ->
  0 <= channels <= inChannels -> channels <= filterChannels ->
  0 <= f < numFilters -> 0 <= y < outH -> 0 <= x < outW ->
  ConvLayer.window_sum cl padded channels kernelH kernelW f y x
  = Ok (sum_from 0%float
          (conv_terms cl input channels kernelH kernelW f y x)).
Proof using All.
  intros Hpadded Hch Hchf Hf Hy Hx.
  assert (Hmax : GoInt.max_int = 2 ^ 63 - 1) by reflexivity.
  assert (Hmin : GoInt.min_int = - 2 ^ 63) by reflexivity.
  unfold outH in Hy. unfold outW in Hx.
  rewrite output_size_shift in Hy, Hx.
  apply window_in_bounds in Hy as [Hy0 Hy1]; [|assumption..].
  apply window_in_bounds in Hx as [Hx0 Hx1]; [|assumption..].
  unfold conv_terms. rewrite sum_from_bind3.
  unfold ConvLayer.window_sum. fold stride padding.
  rewrite !GoIntFacts.mul_in_range by (unfold GoInt.in_range; lia).
  apply for_upto_fold. intros c sum Hc.
  apply for_upto_fold. intros ky sum1 Hky.
  apply for_upto_fold. intros kx sum2 Hkx.
  rewrite !GoIntFacts.add_in_range by (unfold GoInt.in_range; lia).
  destruct (Hpadded c ltac:(lia)) as (g & Hg & Hcells).
  specialize (Hcells (y * stride + ky) (x * stride + kx) ltac:(lia) ltac:(lia)).
  apply at2_Ok in Hcells as (prow & Hprow & Hpv).
  rewrite Hg. simpl. rewrite Hprow. simpl. rewrite Hpv. simpl.
  destruct (at4_in_range _ _ _ _ _ f c ky kx Hfilters) as [fv Hfv]; try lia.
  rewrite Hfv. simpl.
  apply at4_Ok in Hfv as (ff & Hff & Hfv).
  apply at3_Ok in Hfv as (fc & Hfc & Hfv).
  apply at2_Ok in Hfv as (frow & Hfrow & Hfv).
  rewrite Hff. simpl. rewrite Hfc. simpl. rewrite Hfrow. simpl.
  rewrite Hfv. reflexivity.
Qed.

(** Lines 24 to 48 return normally and leave the loops to run on a
    zeroed output and the padded channels. *)
Lemma ConvLayer_Forward_loops :
  exists padded,
    padded_ok padded
    /\ ConvLayer.Forward cl input
       = conv_loops padded
           (replicate (Z.to_nat numFilters)
              (replicate (Z.to_nat outH)
                 (replicate (Z.to_nat outW) 0%float))).
Proof using All.
  unfold ConvLayer.Forward.
  destruct Hfilters as [HlenF _]. destruct Hinput as [HlenI _].
  destruct (index_in_range (ConvLayer.Filters cl) 0) as [f0 Hf0]; [lia|].
  pose proof (rect4_index _ _ _ _ _ _ _ Hfilters Hf0) as Hr0.
  destruct (index_in_range f0 0) as [f00 Hf00]; [destruct Hr0; lia|].
  pose proof (rect3_index _ _ _ _ _ _ Hr0 Hf00) as Hr00.
  destruct (index_in_range f00 0) as [f000 Hf000]; [destruct Hr00; lia|].
  pose proof (rect2_index _ _ _ _ _ Hr00 Hf000) as HlenKW.
  destruct (index_in_range input 0) as [in0 Hin0]; [lia|].
  pose proof (rect3_index _ _ _ _ _ _ Hinput Hin0) as Hri0.
  destruct (index_in_range in0 0) as [in00 Hin00]; [destruct Hri0; lia|].
  pose proof (rect2_index _ _ _ _ _ Hri0 Hin00) as HlenW.
  assert (HinputW : 0 <= inputW) by (rewrite <- HlenW; apply len_nonneg).
  rewrite Hf0. simpl. rewrite Hf00. simpl. rewrite Hf000. simpl.
  rewrite Hin0. simpl. rewrite Hin00. simpl.
  rewrite HlenKW, HlenW, HlenF, HlenI.
  destruct Hr00 as [-> _]. destruct Hri0 as [-> _].
  fold stride padding.
  rewrite !conv_out_dim_spec by lia. simpl. fold outH outW.
  assert (HoutH : 1 <= outH) by (apply output_size_pos; assumption).
  assert (HoutW : 1 <= outW) by (apply output_size_pos; assumption).
  rewrite make3D_spec by lia. simpl.
  rewrite make_nonneg by lia. simpl.
  rewrite len_replicate, Z2Nat.id by lia.
  destruct padded_loop as (padded & -> & Hpadded). simpl.
  exists padded. split; [exact Hpadded | reflexivity].
Qed.


Hypothesis HfilterChannels : inChannels <= filterChannels.
Hypothesis Hbiases : numFilters <= len (ConvLayer.Biases cl).

Lemma ConvLayer_Forward_spec :
  exists output,
    ConvLayer.Forward cl input = Ok output
    /\ rect3 output numFilters outH outW
    /\ forall f y x, 0 <= f < numFilters -> 0 <= y < outH -> 0 <= x < outW ->
         at3 output f y x
         = Ok (conv_cell cl input inChannels kernelH kernelW f y x).
Proof using All.
  destruct ConvLayer_Forward_loops as (padded & Hpadded & ->).
  assert (HoutH : 1 <= outH) by (apply output_size_pos; assumption).
  assert (HoutW : 1 <= outW) by (apply output_size_pos; assumption).
  destruct (fill3
    (fun f y x output =>
       sum <- ConvLayer.window_sum cl padded inChannels kernelH kernelW f y x ;;
       b <- index (ConvLayer.Biases cl) f ;;
       store3 output f y x (relu (sum + b)%float))
    (conv_cell cl input inChannels kernelH kernelW) numFilters outH outW
    (replicate (Z.to_nat numFilters)
       (replicate (Z.to_nat outH) (replicate (Z.to_nat outW) 0%float))))
    as (output & Hloop & Hrect & Hcells); try lia.
  - apply rect3_zeros; lia.
  - intros f y x t Hf Hy Hx.
    rewrite (window_sum_spec padded inChannels f y x Hpadded) by lia. simpl.
    destruct (index_in_range (ConvLayer.Biases cl) f) as [b Hb]; [lia|].
    unfold conv_cell. rewrite Hb. reflexivity.
  - exists output. split; [exact Hloop|]. split; assumption.
Qed.

End Conv.

(** * Order on float64 *)

Lemma SFcompare_Lt_trans (x y z : spec_float) :
  SFcompare x y = Some Lt -> SFcompare y z = Some Lt ->
  SFcompare x z = Some Lt.
Proof.
  destruct x as [sx|sx| |sx mx ex], y as [sy|sy| |sy my ey],
    z as [sz|sz| |sz mz ez]; simpl;
    try discriminate; try reflexivity;
    try (destruct sx; try discriminate; destruct sy; try discriminate;
         destruct sz; try discriminate; reflexivity);
    try (destruct sx, sy; try discriminate; reflexivity);
    try (destruct sy, sz; try discriminate; reflexivity);
    try (destruct sx, sz; try discriminate; reflexivity).
  all: try (destruct sx, sy, sz; simpl; try discriminate; try reflexivity).
  all: rewrite ?Pos.compare_cont_spec; simpl.
  all: destruct (Z.compare_spec ex ey), (Z.compare_spec ey ez),
         (Z.compare_spec ex ez);
       try discriminate; try reflexivity; try lia; subst.
  all: destruct (Pos.compare_spec mx my), (Pos.compare_spec my mz),
         (Pos.compare_spec mx mz);
       simpl; try discriminate; try reflexivity; try lia.
Qed.

Lemma SFcompare_refl (x : spec_float) : SFcompare x x <> Some Lt.
Proof.
  destruct x as [s|s| |s m e]; simpl; try discriminate;
    destruct s; try discriminate.
  all: rewrite Pos.compare_cont_spec, Z.compare_refl, Pos.compare_refl.
  all: discriminate.
Qed.

Lemma SFcompare_total (x y : spec_float) :
  x <> S754_nan -> y <> S754_nan ->
  SFcompare x y <> Some Lt ->
  SFcompare y x = Some Lt \/ SFcompare y x = Some Eq.
Proof.
  destruct x as [sx|sx| |sx mx ex], y as [sy|sy| |sy my ey]; simpl;
    try congruence; intros _ _;
    try (destruct sx; try destruct sy; simpl; intuition congruence);
    try (destruct sy; simpl; intuition congruence).
  destruct sx, sy; simpl; try intuition congruence.
  all: rewrite !Pos.compare_cont_spec; simpl.
  all: rewrite (Z.compare_antisym ex ey), (Pos.compare_antisym mx my).
  all: destruct (ex ?= ey); simpl; try intuition congruence.
  all: destruct (mx ?= my)%positive; simpl; intuition congruence.
Qed.

Lemma float_ltb_trans (x y z : float64) :
  (x <? y)%float = true -> (y <? z)%float = true -> (x <? z)%float = true.
Proof.
  rewrite !FloatAxioms.ltb_spec. unfold SFltb.
  destruct (SFcompare (Prim2SF x) (Prim2SF y)) as [[]|] eqn:E1;
    try discriminate.
  destruct (SFcompare (Prim2SF y) (Prim2SF z)) as [[]|] eqn:E2;
    try discriminate.
  rewrite (SFcompare_Lt_trans _ _ _ E1 E2). reflexivity.
Qed.

Lemma float_ltb_irrefl (x : float64) : (x <? x)%float = false.
Proof.
  rewrite FloatAxioms.ltb_spec. unfold SFltb.
  pose proof (SFcompare_refl (Prim2SF x)).
  destruct (SFcompare (Prim2SF x) (Prim2SF x)) as [[]|]; congruence.
Qed.

Lemma not_nan_spec (x : float64) :
  math.IsNaN x = false -> Prim2SF x <> S754_nan.
Proof.
  unfold math.IsNaN. rewrite FloatAxioms.eqb_spec. unfold SFeqb.
  intros H E. rewrite E in H. discriminate.
Qed.

Lemma float_ltb_false_leb (x y : float64) :
  math.IsNaN x = false -> math.IsNaN y = false ->
  (x <? y)%float = false -> (y <=? x)%float = true.
Proof.
  intros Hx%not_nan_spec Hy%not_nan_spec.
  rewrite FloatAxioms.ltb_spec, FloatAxioms.leb_spec. unfold SFltb, SFleb.
  intros H.
  destruct (SFcompare_total _ _ Hx Hy) as [-> | ->]; try reflexivity.
  intros E. rewrite E in H. discriminate.
Qed.

Lemma float_ltb_not_nan (x y : float64) :
  (x <? y)%float = true -> math.IsNaN x = false /\ math.IsNaN y = false.
Proof.
  unfold math.IsNaN. rewrite FloatAxioms.ltb_spec, !FloatAxioms.eqb_spec.
  unfold SFltb, SFeqb.
  destruct (Prim2SF x) as [sx|sx| |sx mx ex], (Prim2SF y) as [sy|sy| |sy my ey];
    simpl; try discriminate; intros _;
    repeat match goal with s : bool |- _ => destruct s end; simpl;
    rewrite ?Pos.compare_cont_spec, ?Z.compare_refl, ?Pos.compare_refl;
    auto.
Qed.

(** ** The scan of a window *)





Lemma fold_left_bind2 {A B : Type} (op : A -> B -> A) (term : Z -> Z -> B)
  (l1 l2 : list Z) (a : A) :
  fold_left op (ky ← l1; kx ← l2; [term ky kx]) a
  = fold_left (fun a ky =>
      fold_left (fun a kx => op a (term ky kx)) l2 a) l1 a.
Proof.
  rewrite fold_left_bind.
  apply fold_left_ext_in. intros a1 ky _.
  rewrite fold_left_bind. reflexivity.
Qed.

(** * The max pooling layer on well-formed data *)

Section Pool.

Variables (mpl : MaxPoolLayer.t) (input : Tensor3D).
Variables (channels h w : Z).

Let poolSize := MaxPoolLayer.PoolSize mpl.
Let stride := MaxPoolLayer.Stride mpl.
Let outH := output_size h poolSize stride 0.
Let outW := output_size w poolSize stride 0.

Hypothesis Hinput : rect3 input channels h w.
Hypothesis Hchannels : 1 <= channels.
Hypothesis HpoolSize : 1 <= poolSize.
Hypothesis Hstride : 1 <= stride.
Hypothesis HsizeH : poolSize <= h.
Hypothesis HsizeW : poolSize <= w.
Hypothesis HfitH : h <= GoInt.max_int.
Hypothesis HfitW : w <= GoInt.max_int.

Lemma window_max_spec (c y x : Z) :
  0 <= c < channels -> 0 <= y < outH -> 0 <= x < outW ->
  MaxPoolLayer.window_max mpl input c
    (GoInt.mul y stride) (GoInt.mul x stride)
  = Ok (pool_cell mpl input c y x).
Proof using All.
  intros Hc Hy Hx.
  assert (Hmax : GoInt.max_int = 2 ^ 63 - 1) by reflexivity.
  assert (Hmin : GoInt.min_int = - 2 ^ 63) by reflexivity.
  apply window_in_bounds in Hy as [Hy0 Hy1]; [|assumption..].
  apply window_in_bounds in Hx as [Hx0 Hx1]; [|assumption..].
  rewrite !GoIntFacts.mul_in_range by (unfold GoInt.in_range; lia).
  unfold MaxPoolLayer.window_max, pool_cell, running_max, pool_window.
  fold poolSize stride.
  rewrite fold_left_bind2.
  destruct (at3_in_range input _ _ _ c (y * stride) (x * stride) Hinput)
    as [v0 Hv0]; try lia.
  rewrite Hv0. simpl.
  apply at3_Ok in Hv0 as (ic & Hic & Hv0).
  apply at2_Ok in Hv0 as (r0 & Hr0 & Hv0).
  rewrite Hic. simpl. rewrite Hr0. simpl. rewrite Hv0. simpl.
  apply for_upto_fold. intros ky m1 Hky.
  apply for_upto_fold. intros kx m2 Hkx.
  rewrite !GoIntFacts.add_in_range by (unfold GoInt.in_range; lia).
  destruct (at3_in_range input _ _ _ c (y * stride + ky) (x * stride + kx)
              Hinput) as [v Hv]; try lia.
  rewrite Hv. simpl.
  apply at3_Ok in Hv as (ic' & Hic' & Hv).
  rewrite Hic in Hic'. injection Hic' as <-.
  apply at2_Ok in Hv as (r & Hr & Hv).
  rewrite Hr. simpl. rewrite Hv. reflexivity.
Qed.

Lemma MaxPoolLayer_Forward_spec :
  exists output,
    MaxPoolLayer.Forward mpl input = Ok output
    /\ rect3 output channels outH outW
    /\ forall c y x, 0 <= c < channels -> 0 <= y < outH -> 0 <= x < outW ->
         at3 output c y x = Ok (pool_cell mpl input c y x).
Proof using All.
  unfold MaxPoolLayer.Forward.
  destruct Hinput as [HlenI _].
  destruct (index_in_range input 0) as [in0 Hin0]; [lia|].
  pose proof (rect3_index _ _ _ _ _ _ Hinput Hin0) as Hri0.
  destruct (index_in_range in0 0) as [in00 Hin00]; [destruct Hri0; lia|].
  pose proof (rect2_index _ _ _ _ _ Hri0 Hin00) as HlenW.
  rewrite Hin0. simpl. rewrite Hin00. simpl.
  rewrite HlenW, HlenI. destruct Hri0 as [-> _].
  fold stride poolSize.
  rewrite !pool_out_dim_spec by lia. simpl. fold outH outW.
  assert (HoutH : 1 <= outH) by (apply output_size_pos; lia).
  assert (HoutW : 1 <= outW) by (apply output_size_pos; lia).
  rewrite make3D_spec by lia. simpl.
  destruct (fill3
    (fun c y x output =>
       let yStart := GoInt.mul y stride in
       let xStart := GoInt.mul x stride in
       maxVal <- MaxPoolLayer.window_max mpl input c yStart xStart ;;
       store3 output c y x maxVal)
    (pool_cell mpl input) channels outH outW
    (replicate (Z.to_nat channels)
       (replicate (Z.to_nat outH) (replicate (Z.to_nat outW) 0%float))))
    as (output & Hloop & Hrect & Hcells); try lia.
  - apply rect3_zeros; lia.
  - intros c y x t Hc Hy Hx. simpl.
    rewrite window_max_spec by assumption. reflexivity.
  - exists output. split; [exact Hloop|]. split; assumption.
Qed.

End Pool.


(** * The dense layer on well-formed data *)

Lemma tabulate_eq {A : Type} (f : Z -> A) (l : list A) (n : Z) :
  len l = n ->
  (forall i, 0 <= i < n -> index l i = Ok (f i)) ->
  f <$> seqZ 0 n = l.
Proof.
  intros <- H. apply list_eq. intros k.
  rewrite list_lookup_fmap.
  destruct (l !! k) as [a|] eqn:E.
  - pose proof (lookup_lt_Some _ _ _ E) as Hk.
    rewrite lookup_seqZ_lt by (unfold len; lia). simpl.
    specialize (H (Z.of_nat k) ltac:(unfold len; lia)).
    rewrite (index_of_nat _ _ _ E) in H. injection H as ->.
    f_equal.
  - apply lookup_ge_None in E.
    rewrite lookup_seqZ_ge by (unfold len; lia). reflexivity.
Qed.

Section Dense.

Variables (dl : DenseLayer.t) (input : Vector1D).
Variables (rows cols : Z).

Hypothesis Hweights : rect2 (DenseLayer.Weights dl) rows cols.
Hypothesis Hbiases : len (DenseLayer.Biases dl) <= rows.
Hypothesis Hinput : len input <= cols.

(** Lines 142 to 144 for neuron [i], from the bias just stored. *)
Lemma dense_accumulate (i : Z) (b : float64) (output : Vector1D) :
  0 <= i < len (DenseLayer.Biases dl) -> i < len output ->
  for_upto (len input)
    (fun j output =>
       wi <- index (DenseLayer.Weights dl) i ;;
       wij <- index wi j ;;
       xj <- index input j ;;
       oi <- index output i ;;
       store output i (oi + wij * xj)%float)
    (<[Z.to_nat i := b]> output)
  = Ok (<[Z.to_nat i := sum_from b (dense_terms dl input i)]> output).
Proof using All.
  intros Hi Hlen.
  destruct (for_upto_inv
    (fun j st =>
       st = <[Z.to_nat i :=
               sum_from b
                 ((fun j => (value (at2 (DenseLayer.Weights dl) i j)
                             * value (index input j))%float)
                  <$> seqZ 0 j)]> output)
    (fun j output =>
       wi <- index (DenseLayer.Weights dl) i ;;
       wij <- index wi j ;;
       xj <- index input j ;;
       oi <- index output i ;;
       store output i (oi + wij * xj)%float)
    (len input) (<[Z.to_nat i := b]> output)) as (st & Hl & ->).
  - apply len_nonneg.
  - reflexivity.
  - intros j st Hj ->.
    destruct (at2_in_range _ _ _ i j Hweights) as [wij Hwij']; try lia.
    pose proof Hwij' as Hwij.
    apply at2_Ok in Hwij as (wi & Hwi & Hwij).
    destruct (index_in_range input j) as [xj Hxj]; [lia|].
    rewrite Hwi. simpl. rewrite Hwij. simpl. rewrite Hxj. simpl.
    match goal with |- context [index (<[_ := ?a]> _) i] =>
      assert (Hoi : index (<[Z.to_nat i := a]> output) i = Ok a)
    end.
    { apply index_Ok. split; [lia|]. apply list_lookup_insert_eq.
      unfold len in Hlen. lia. }
    rewrite Hoi. simpl.
    rewrite store_in_range
      by (unfold len in *; rewrite length_insert; lia).
    eexists. split; [reflexivity|].
    rewrite list_insert_insert_eq. f_equal.
    rewrite (seqZ_app 0 j 1) by lia. rewrite fmap_app.
    unfold sum_from. rewrite fold_left_app. simpl.
    replace (Z.of_nat 0 + (0 + j)) with j by lia.
    rewrite Hwij', Hxj. reflexivity.
  - exact Hl.
Qed.

Lemma DenseLayer_Forward_spec :
  DenseLayer.Forward dl input
  = Ok (dense_output dl input <$> seqZ 0 (len (DenseLayer.Biases dl))).
Proof using All.
  unfold DenseLayer.Forward.
  rewrite make_nonneg by apply len_nonneg. simpl.
  rewrite len_replicate, Z2Nat.id by apply len_nonneg.
  apply fill1.
  - rewrite len_replicate. pose proof (len_nonneg (DenseLayer.Biases dl)). lia.
  - intros i s Hi.
    destruct (index_in_range (DenseLayer.Biases dl) i) as [b Hb]; [lia|].
    rewrite Hb. simpl. unfold dense_output. rewrite Hb. simpl.
    destruct (Z.lt_ge_cases i (len s)) as [Hlt|Hge].
    + rewrite store_in_range by lia. simpl.
      rewrite dense_accumulate by lia. simpl.
      match goal with |- context [index (<[_ := ?a]> _) i] =>
        assert (Hoi : index (<[Z.to_nat i := a]> s) i = Ok a)
      end.
      { apply index_Ok. split; [lia|]. apply list_lookup_insert_eq.
        unfold len in Hlt. lia. }
      rewrite Hoi. simpl.
      rewrite !store_in_range
        by (unfold len in *; rewrite ?length_insert; lia).
      rewrite list_insert_insert_eq. reflexivity.
    + unfold store at 3.
      destruct (Z.leb_spec 0 i); destruct (Z.ltb_spec i (len s));
        try lia; simpl.
      unfold store. destruct (Z.leb_spec 0 i); destruct (Z.ltb_spec i (len s));
        try lia; reflexivity.
Qed.

End Dense.

(** * The flatten layer on well-formed data *)

Lemma wrap_mul_wrap (a b : Z) :
  GoInt.wrap (GoInt.wrap a * b) = GoInt.wrap (a * b).
Proof.
  unfold GoInt.wrap at 2.
  assert (E : (a + 2 ^ 63) mod 2 ^ 64 - 2 ^ 63
              = a - 2 ^ 64 * ((a + 2 ^ 63) / 2 ^ 64))
    by (rewrite Z.mod_eq by lia; lia).
  rewrite E. unfold GoInt.wrap.
  replace ((a - 2 ^ 64 * ((a + 2 ^ 63) / 2 ^ 64)) * b + 2 ^ 63)
    with (a * b + 2 ^ 63 + (- ((a + 2 ^ 63) / 2 ^ 64) * b) * 2 ^ 64) by ring.
  rewrite Z_mod_plus_full. reflexivity.
Qed.

Lemma flat_index_lt (h w c y x c' y' x' : Z) :
  0 <= y < h -> 0 <= x < w -> 0 <= y' < h -> 0 <= x' < w ->
  c' < c \/ (c' = c /\ (y' < y \/ (y' = y /\ x' < x))) ->
  flat_index h w c' y' x' < flat_index h w c y x.
Proof.
  unfold flat_index. intros Hy Hx Hy' Hx' Hlt.
  assert (Hrow : forall a b, a < b -> a * w + w <= b * w) by (intros; nia).
  destruct Hlt as [Hc|[-> [Hlt|[-> Hlt]]]].
  - assert (y' * w + w <= h * w) by (apply Hrow; lia).
    assert (0 <= h * w) by (apply Z.mul_nonneg_nonneg; lia).
    assert (0 <= (c - c' - 1) * (h * w))
      by (apply Z.mul_nonneg_nonneg; lia).
    assert (0 <= y * w) by (apply Z.mul_nonneg_nonneg; lia).
    lia.
  - specialize (Hrow y' y Hlt). lia.
  - lia.
Qed.

Section Flatten.

Variables (input : Tensor3D) (c h w : Z).

Hypothesis Hinput : rect3 input c h w.
Hypothesis Hc : 1 <= c.
Hypothesis Hh : 1 <= h.
Hypothesis Hfit : c * h * w <= GoInt.max_int.

Let before (C Y X ch y x : Z) : Prop :=
  ch < C \/ (ch = C /\ (y < Y \/ (y = Y /\ x < X))).

(** The state of lines 119 to 128 when the loops stand at [(C, Y, X)]:
    [i] is the flat index of that position and every earlier cell has been
    copied to its flat index. *)
Let copied (C Y X : Z) (st : Vector1D * Z) : Prop :=
  snd st = flat_index h w C Y X
  /\ len (fst st) = c * h * w
  /\ forall ch y x, 0 <= ch < c -> 0 <= y < h -> 0 <= x < w ->
       before C Y X ch y x ->
       index (fst st) (flat_index h w ch y x) = at3 input ch y x.

Lemma width_nonneg : 0 <= w.
Proof using All.
  destruct (index_in_range input 0) as [g Hg]; [destruct Hinput; lia|].
  pose proof (rect3_index _ _ _ _ _ _ Hinput Hg) as Hrg.
  destruct (index_in_range g 0) as [r Hr]; [destruct Hrg; lia|].
  rewrite <- (rect2_index _ _ _ _ _ Hrg Hr). apply len_nonneg.
Qed.

Lemma flat_index_bound (ch y x : Z) :
  0 <= ch < c -> 0 <= y < h -> 0 <= x < w ->
  0 <= flat_index h w ch y x < c * h * w.
Proof using All.
  intros Hch Hy Hx. split.
  - unfold flat_index.
    assert (0 <= ch * h) by (apply Z.mul_nonneg_nonneg; lia).
    assert (0 <= ch * h * w) by (apply Z.mul_nonneg_nonneg; lia).
    assert (0 <= y * w) by (apply Z.mul_nonneg_nonneg; lia). lia.
  - replace (c * h * w) with (flat_index h w c 0 0) by (unfold flat_index; lia).
    destruct (Z.eq_dec w 0); [lia|].
    unfold flat_index.
    assert (0 <= (h - y - 1) * w) by (apply Z.mul_nonneg_nonneg; lia).
    assert (0 <= h * w) by (apply Z.mul_nonneg_nonneg; lia).
    assert (0 <= (c - ch - 1) * (h * w))
      by (apply Z.mul_nonneg_nonneg; lia).
    lia.
Qed.

Lemma flatten_row (C Y : Z) (ic : Grid2D) (icy : list float64)
  (st : Vector1D * Z) :
  0 <= C < c -> 0 <= Y < h ->
  index input C = Ok ic -> index ic Y = Ok icy ->
  copied C Y 0 st ->
  exists st',
    for_upto (len icy)
      (fun x st =>
         let '(output, i) := st in
         ic <- index input C ;;
         icy <- index ic Y ;;
         v <- index icy x ;;
         output' <- store output i v ;;
         Ok (output', GoInt.add i 1))
      st = Ok st'
    /\ copied C (Y + 1) 0 st'.
Proof using All.
  intros HC HY Hic Hicy H0.
  pose proof width_nonneg as Hw.
  assert (Hmax : GoInt.max_int = 2 ^ 63 - 1) by reflexivity.
  assert (Hmin : GoInt.min_int = - 2 ^ 63) by reflexivity.
  pose proof (rect3_index _ _ _ _ _ _ Hinput Hic) as Hric.
  pose proof (rect2_index _ _ _ _ _ Hric Hicy) as Hlen.
  rewrite Hlen.
  destruct (for_upto_inv (fun X st => copied C Y X st)
    (fun x st =>
         let '(output, i) := st in
         ic <- index input C ;;
         icy <- index ic Y ;;
         v <- index icy x ;;
         output' <- store output i v ;;
         Ok (output', GoInt.add i 1)) w st Hw H0) as (st' & Hl & Hi & Hlo & Hcp).
  - intros X [output i] HX (Hi & Hlo & Hcp). simpl in Hi, Hlo, Hcp. subst i.
    rewrite Hic. simpl. rewrite Hicy. simpl.
    destruct (index_in_range icy X) as [v Hv]; [lia|].
    rewrite Hv. simpl.
    pose proof (flat_index_bound C Y X HC HY HX) as Hb.
    destruct (store output (flat_index h w C Y X) v) as [output'|] eqn:Hst;
      [|rewrite store_in_range in Hst by lia; discriminate].
    simpl. eexists. split; [reflexivity|]. split; [|split]; simpl.
    + rewrite GoIntFacts.add_in_range by (unfold GoInt.in_range; lia).
      unfold flat_index. lia.
    + rewrite (store_len _ _ _ _ Hst). exact Hlo.
    + intros ch y x Hch Hy Hx Hbef.
      destruct (Z.eq_dec ch C) as [->|Hne1];
        [destruct (Z.eq_dec y Y) as [->|Hne2];
          [destruct (Z.eq_dec x X) as [->|Hne3]|]|].
      * rewrite (index_store_eq _ _ _ _ Hst).
        unfold at3, at2. rewrite Hic. simpl. rewrite Hicy. simpl.
        symmetry. exact Hv.
      * rewrite (index_store_ne _ _ _ _ _ Hst).
        -- apply Hcp; auto. unfold before in *. lia.
        -- unfold flat_index. lia.
      * assert (Hbef' : before C Y X C y x) by (unfold before in *; lia).
        rewrite (index_store_ne _ _ _ _ _ Hst).
        -- apply Hcp; auto.
        -- pose proof (flat_index_lt h w C Y X C y x HY HX Hy Hx Hbef'). lia.
      * assert (Hbef' : before C Y X ch y x) by (unfold before in *; lia).
        rewrite (index_store_ne _ _ _ _ _ Hst).
        -- apply Hcp; auto.
        -- pose proof (flat_index_lt h w C Y X ch y x HY HX Hy Hx Hbef'). lia.
  - exists st'. split; [exact Hl|]. split; [|split].
    + rewrite Hi. unfold flat_index. lia.
    + exact Hlo.
    + intros ch y x Hch Hy Hx Hbef. apply Hcp; auto.
      unfold before in *. lia.
Qed.

Lemma flatten_channel (C : Z) (ic : Grid2D) (st : Vector1D * Z) :
  0 <= C < c ->
  index input C = Ok ic ->
  copied C 0 0 st ->
  exists st',
    for_upto (len ic)
      (fun y st =>
         icy <- index ic y ;;
         for_upto (len icy)
           (fun x st =>
              let '(output, i) := st in
              ic <- index input C ;;
              icy <- index ic y ;;
              v <- index icy x ;;
              output' <- store output i v ;;
              Ok (output', GoInt.add i 1))
           st)
      st = Ok st'
    /\ copied (C + 1) 0 0 st'.
Proof using All.
  intros HC Hic H0.
  pose proof (rect3_index _ _ _ _ _ _ Hinput Hic) as Hric.
  destruct Hric as [Hlen Hrows]. rewrite Hlen.
  destruct (for_upto_inv (fun Y st => copied C Y 0 st)
    (fun y st =>
         icy <- index ic y ;;
         for_upto (len icy)
           (fun x st =>
              let '(output, i) := st in
              ic <- index input C ;;
              icy <- index ic y ;;
              v <- index icy x ;;
              output' <- store output i v ;;
              Ok (output', GoInt.add i 1))
           st) h st ltac:(lia) H0) as (st' & Hl & Hi & Hlo & Hcp).
  - intros Y st1 HY H1.
    destruct (index_in_range ic Y) as [icy Hicy]; [lia|].
    rewrite Hicy. simpl.
    exact (flatten_row C Y ic icy st1 HC HY Hic Hicy H1).
  - exists st'. split; [exact Hl|]. split; [|split].
    + rewrite Hi. unfold flat_index. lia.
    + exact Hlo.
    + intros ch y x Hch Hy Hx Hbef. apply Hcp; auto.
      unfold before in *. lia.
Qed.

Lemma FlattenLayer_Forward_spec :
  exists output,
    FlattenLayer.Forward input = Ok output
    /\ len output = c * h * w
    /\ forall ch y x, 0 <= ch < c -> 0 <= y < h -> 0 <= x < w ->
         index output (flat_index h w ch y x) = at3 input ch y x.
Proof using All.
  pose proof width_nonneg as Hw.
  assert (Hmax : GoInt.max_int = 2 ^ 63 - 1) by reflexivity.
  assert (Hmin : GoInt.min_int = - 2 ^ 63) by reflexivity.
  unfold FlattenLayer.Forward.
  destruct (index_in_range input 0) as [in0 Hin0]; [destruct Hinput; lia|].
  pose proof (rect3_index _ _ _ _ _ _ Hinput Hin0) as Hri0.
  destruct (index_in_range in0 0) as [in00 Hin00]; [destruct Hri0; lia|].
  pose proof (rect2_index _ _ _ _ _ Hri0 Hin00) as HlenW.
  rewrite Hin0. simpl. rewrite Hin00. simpl.
  destruct Hinput as [HlenI _]. destruct Hri0 as [HlenH _].
  rewrite HlenI, HlenH, HlenW.
  assert (Hsize : 0 <= c * h * w) by nia.
  unfold GoInt.mul. rewrite wrap_mul_wrap.
  rewrite GoIntFacts.wrap_in_range by (unfold GoInt.in_range; lia).
  rewrite make_nonneg by exact Hsize. simpl.
  destruct (for_upto_inv (fun C st => copied C 0 0 st)
    (fun c st =>
         ic <- index input c ;;
         for_upto (len ic)
           (fun y st =>
              icy <- index ic y ;;
              for_upto (len icy)
                (fun x st =>
                   let '(output, i) := st in
                   ic <- index input c ;;
                   icy <- index ic y ;;
                   v <- index icy x ;;
                   output' <- store output i v ;;
                   Ok (output', GoInt.add i 1))
                st)
           st)
    c (replicate (Z.to_nat (c * h * w)) 0%float, 0))
    as (st' & Hl & Hi & Hlo & Hcp).
  - lia.
  - split; [reflexivity|]. split; [simpl; rewrite len_replicate; lia|].
    intros ch y x Hch Hy Hx Hbef. unfold before in Hbef. lia.
  - intros C st1 HC H1.
    destruct (index_in_range input C) as [ic Hic]; [lia|].
    rewrite (bind_eq_Ok _ _ _ Hic).
    exact (flatten_channel C ic st1 HC Hic H1).
  - rewrite Hl. simpl. exists (fst st'). split; [reflexivity|].
    split; [exact Hlo|].
    intros ch y x Hch Hy Hx. apply Hcp; auto. unfold before. lia.
Qed.


End Flatten.


(** * The activation *)

Lemma is_nan_ltb_l (x y : float64) :
  math.IsNaN x = true -> (x <? y)%float = false.
Proof.
  intros Hx. destruct (x <? y)%float eqn:E; [|reflexivity].
  apply float_ltb_not_nan in E as [E _]. congruence.
Qed.

Lemma is_nan_ltb_r (x y : float64) :
  math.IsNaN y = true -> (x <? y)%float = false.
Proof.
  intros Hy. destruct (x <? y)%float eqn:E; [|reflexivity].
  apply float_ltb_not_nan in E as [_ E]. congruence.
Qed.

Lemma relu_unfold (x : float64) :
  relu x
  = if (math.MaxFloat64 <? x)%float then infinity
    else if math.IsNaN x then nan
    else if (0 =? x)%float then 0%float
    else if (x <? 0)%float then 0%float
    else x.
Proof.
  unfold relu, math.Max, math.IsInf.
  change (1 >=? 0) with true. change (1 <=? 0) with false.
  change (math.MaxFloat64 <? 0)%float with false.
  change (math.IsNaN 0) with false.
  change (math.Signbit 0) with false.
  change (0 =? 0)%float with true. simpl.
  destruct (math.MaxFloat64 <? x)%float; reflexivity.
Qed.

Lemma relu_nan (x : float64) : math.IsNaN x = true -> relu x = nan.
Proof.
  intros Hx. rewrite relu_unfold, is_nan_ltb_r, Hx; auto.
Qed.

Lemma relu_nonneg (x : float64) :
  math.IsNaN x = false -> (0 <=? relu x)%float = true.
Proof.
  intros Hx. rewrite relu_unfold, Hx.
  destruct (math.MaxFloat64 <? x)%float; [reflexivity|].
  destruct (0 =? x)%float; [reflexivity|].
  destruct (x <? 0)%float eqn:E; [reflexivity|].
  apply float_ltb_false_leb; [exact Hx | reflexivity | exact E].
Qed.

Lemma relu_nonneg_or_nan (x : float64) : nonneg_or_nan (relu x).
Proof.
  destruct (math.IsNaN x) eqn:Hx.
  - left. rewrite (relu_nan x Hx). reflexivity.
  - right. apply relu_nonneg, Hx.
Qed.

Lemma leb_not_ltb (x y : float64) :
  (x <=? y)%float = true -> (y <? x)%float = false.
Proof.
  rewrite FloatAxioms.ltb_spec, FloatAxioms.leb_spec. unfold SFltb, SFleb.
  destruct (Prim2SF x) as [sx|sx| |sx mx ex], (Prim2SF y) as [sy|sy| |sy my ey];
    simpl; try discriminate; try reflexivity;
    repeat match goal with s : bool |- _ => destruct s end; simpl;
    try discriminate; try reflexivity.
  all: rewrite !Pos.compare_cont_spec.
  all: rewrite (Z.compare_antisym ex ey), (Pos.compare_antisym mx my).
  all: destruct (ex ?= ey); simpl; try discriminate; try reflexivity.
  all: destruct (mx ?= my)%positive; simpl; try discriminate; reflexivity.
Qed.

Lemma nonneg_or_nan_not_negative (v : float64) :
  nonneg_or_nan v -> (v <? 0)%float = false.
Proof.
  intros [Hn|Hp]; [apply is_nan_ltb_l, Hn | apply leb_not_ltb, Hp].
Qed.

(** * What the layers preserve, whatever the shapes *)

Section Cells.

Variable P : float64 -> Prop.
Hypothesis Pzero : P 0%float.

Lemma store_Forall {A : Type} (Q : A -> Prop) (s s' : list A) (i : Z) (v : A) :
  store s i v = Ok s' -> Forall Q s -> Q v -> Forall Q s'.
Proof using Type.
  intros [_ ->]%store_Ok Hs Hv. apply Forall_insert; assumption.
Qed.

Lemma index_Forall {A : Type} (Q : A -> Prop) (s : list A) (i : Z) (v : A) :
  index s i = Ok v -> Forall Q s -> Q v.
Proof using Type.
  intros [_ Hv]%index_Ok Hs. exact (proj1 (Forall_lookup _ _) Hs _ _ Hv).
Qed.

Lemma store3_all_cells (t t' : Tensor3D) (a b c : Z) (v : float64) :
  store3 t a b c v = Ok t' -> all_cells P t -> P v -> all_cells P t'.
Proof using Type.
  unfold store3. intros H Ht Hv.
  apply bind_Ok_inv in H as (ch & Hch & H).
  apply bind_Ok_inv in H as (row & Hrow & H).
  apply bind_Ok_inv in H as (row' & Hrow' & H).
  apply bind_Ok_inv in H as (ch' & Hch' & H).
  pose proof (index_Forall _ _ _ _ Hch Ht) as Hc.
  pose proof (index_Forall _ _ _ _ Hrow Hc) as Hr.
  eapply store_Forall; [exact H|exact Ht|].
  eapply store_Forall; [exact Hch'|exact Hc|].
  eapply store_Forall; [exact Hrow'|exact Hr|exact Hv].
Qed.

Lemma make2D_cells (rows cols : Z) (g : Grid2D) :
  make2D rows cols = Ok g -> Forall (Forall P) g.
Proof using Pzero.
  unfold make2D. intros H.
  apply bind_Ok_inv in H as (g0 & [_ ->]%make_Ok & H).
  revert H. apply for_upto_preserves; [|apply Forall_replicate, Forall_nil_2].
  intros j t t' Ht Hb.
  apply bind_Ok_inv in Hb as (r & [_ ->]%make_Ok & Hst).
  eapply store_Forall; [exact Hst|exact Ht|].
  apply Forall_replicate, Pzero.
Qed.

Lemma make3D_cells (n outH outW : Z) (t : Tensor3D) :
  make3D n outH outW = Ok t -> all_cells P t.
Proof using Pzero.
  unfold make3D, all_cells. intros H.
  apply bind_Ok_inv in H as (t0 & [_ ->]%make_Ok & H).
  revert H. apply for_upto_preserves; [|apply Forall_replicate, Forall_nil_2].
  intros j s s' Hs Hb.
  apply bind_Ok_inv in Hb as (ch & Hch & Hst).
  eapply store_Forall; [exact Hst|exact Hs|].
  eapply make2D_cells, Hch.
Qed.

(** Every cell the convolution writes is an activation, so a property of
    all activations and of zero holds of the whole output. *)
Lemma ConvLayer_Forward_cells (cl : ConvLayer.t) (input output : Tensor3D) :
  (forall x, P (relu x)) ->
  ConvLayer.Forward cl input = Ok output -> all_cells P output.
Proof using Pzero.
  intros Hrelu H. unfold ConvLayer.Forward in H.
  do 7 (apply bind_Ok_inv in H as (? & _ & H)).
  apply bind_Ok_inv in H as (out0 & Hout0%make3D_cells & H).
  do 2 (apply bind_Ok_inv in H as (? & _ & H)).
  revert H. apply for_upto_preserves; [|exact Hout0].
  intros f t t' Ht. apply for_upto_preserves; [|exact Ht].
  intros y t1 t1' Ht1. apply for_upto_preserves; [|exact Ht1].
  intros x' t2 t2' Ht2 Hb.
  apply bind_Ok_inv in Hb as (sum & _ & Hb).
  apply bind_Ok_inv in Hb as (b & _ & Hb).
  eapply store3_all_cells; [exact Hb|exact Ht2|apply Hrelu].
Qed.

(** Every cell the pooling writes is a cell of its input. *)
Lemma MaxPoolLayer_Forward_cells (mpl : MaxPoolLayer.t)
  (input output : Tensor3D) :
  all_cells P input ->
  MaxPoolLayer.Forward mpl input = Ok output -> all_cells P output.
Proof using Pzero.
  intros Hin H. unfold MaxPoolLayer.Forward in H.
  do 4 (apply bind_Ok_inv in H as (? & _ & H)).
  apply bind_Ok_inv in H as (out0 & Hout0%make3D_cells & H).
  revert H. apply for_upto_preserves; [|exact Hout0].
  intros c' t t' Ht. apply for_upto_preserves; [|exact Ht].
  intros y' t1 t1' Ht1. apply for_upto_preserves; [|exact Ht1].
  intros x' t2 t2' Ht2 Hb. simpl in Hb.
  apply bind_Ok_inv in Hb as (m & Hm & Hb).
  eapply store3_all_cells; [exact Hb|exact Ht2|].
  unfold MaxPoolLayer.window_max in Hm.
  apply bind_Ok_inv in Hm as (ic & Hic & Hm).
  apply bind_Ok_inv in Hm as (r0 & Hr0 & Hm).
  apply bind_Ok_inv in Hm as (v0 & Hv0 & Hm).
  pose proof (index_Forall _ _ _ _ Hic Hin) as Hc.
  revert Hm. apply for_upto_preserves.
  - intros ky m1 m1' Hm1. apply for_upto_preserves; [|exact Hm1].
    intros kx m2 m2' Hm2 Hb2.
    apply bind_Ok_inv in Hb2 as (ic' & Hic' & Hb2).
    apply bind_Ok_inv in Hb2 as (r & Hr & Hb2).
    apply bind_Ok_inv in Hb2 as (val & Hval & Hb2).
    injection Hb2 as <-.
    destruct (m2 <? val)%float; [|exact Hm2].
    eapply index_Forall; [exact Hval|].
    eapply index_Forall; [exact Hr|].
    eapply index_Forall; [exact Hic'|exact Hin].
  - eapply index_Forall; [exact Hv0|].
    eapply index_Forall; [exact Hr0|exact Hc].
Qed.

(** Every element the flattening writes is a cell of its input. *)
Lemma FlattenLayer_Forward_cells (input : Tensor3D) (output : Vector1D) :
  all_cells P input ->
  FlattenLayer.Forward input = Ok output -> Forall P output.
Proof using Pzero.
  intros Hin H. unfold FlattenLayer.Forward in H.
  do 2 (apply bind_Ok_inv in H as (? & _ & H)).
  apply bind_Ok_inv in H as (out0 & [_ ->]%make_Ok & H).
  apply bind_Ok_inv in H as (st & Hst & H). injection H as <-.
  revert Hst.
  apply (for_upto_preserves (fun st => Forall P (fst st)));
    [|apply Forall_replicate, Pzero].
  intros c' st1 st1' Hst1 Hb.
  apply bind_Ok_inv in Hb as (ic & Hic & Hb).
  revert Hb. apply (for_upto_preserves (fun st => Forall P (fst st)));
    [|exact Hst1].
  intros y' st2 st2' Hst2 Hb.
  apply bind_Ok_inv in Hb as (icy & Hicy & Hb).
  revert Hb. apply (for_upto_preserves (fun st => Forall P (fst st)));
    [|exact Hst2].
  intros x' [out i] st3' Hst3 Hb.
  apply bind_Ok_inv in Hb as (ic' & Hic' & Hb).
  apply bind_Ok_inv in Hb as (icy' & Hicy' & Hb).
  apply bind_Ok_inv in Hb as (v & Hv & Hb).
  apply bind_Ok_inv in Hb as (out' & Hout' & Hb).
  injection Hb as <-. simpl in *.
  eapply store_Forall; [exact Hout'|exact Hst3|].
  eapply index_Forall; [exact Hv|].
  eapply index_Forall; [exact Hicy'|].
  eapply index_Forall; [exact Hic'|exact Hin].
Qed.

(** Every element the dense layer leaves is an activation. *)
Lemma DenseLayer_Forward_cells (dl : DenseLayer.t) (input output : Vector1D) :
  (forall x, P (relu x)) ->
  DenseLayer.Forward dl input = Ok output -> Forall P output.
Proof using Pzero.
  intros Hrelu H. unfold DenseLayer.Forward in H.
  apply bind_Ok_inv in H as (out0 & [_ ->]%make_Ok & H).
  revert H. apply for_upto_preserves; [|apply Forall_replicate, Pzero].
  intros i s s' Hs Hb.
  apply bind_Ok_inv in Hb as (b & _ & Hb).
  apply bind_Ok_inv in Hb as (s1 & Hs1 & Hb).
  apply bind_Ok_inv in Hb as (s2 & Hs2 & Hb).
  apply bind_Ok_inv in Hb as (oi & _ & Hb).
  pose (others := fun t : Vector1D =>
    forall k v, t !! k = Some v -> k <> Z.to_nat i -> P v).
  assert (H1 : others s1).
  { apply store_Ok in Hs1 as [_ ->]. intros k v Hk Hne.
    rewrite list_lookup_insert_ne in Hk by congruence.
    exact (proj1 (Forall_lookup _ _) Hs _ _ Hk). }
  assert (H2 : others s2).
  { revert Hs2. apply for_upto_preserves; [|exact H1].
    intros j t t' Ht Hj.
    repeat (apply bind_Ok_inv in Hj as (? & _ & Hj)).
    apply store_Ok in Hj as [_ ->]. intros k v Hk Hne.
    rewrite list_lookup_insert_ne in Hk by congruence.
    exact (Ht _ _ Hk Hne). }
  apply store_Ok in Hb as [Hi ->].
  apply Forall_lookup. intros k v Hk.
  destruct (Nat.eq_dec k (Z.to_nat i)) as [->|Hne].
  - rewrite list_lookup_insert_eq in Hk by (unfold len in Hi; lia).
    injection Hk as <-. apply Hrelu.
  - rewrite list_lookup_insert_ne in Hk by congruence.
    exact (H2 _ _ Hk Hne).
Qed.

End Cells.

(** * Configurations the layers do not check *)

Lemma for_upto_skip {S : Type} (body : Z -> S -> result S) (n : Z) (s : S) :
  (forall i t, 0 <= i < n -> body i t = Ok t) -> for_upto n body s = Ok s.
Proof.
  intros H. rewrite (for_upto_fold (fun _ t => t)) by exact H. f_equal.
  generalize (seqZ 0 n). intros l. induction l; [reflexivity | assumption].
Qed.

Lemma make3D_negative_height (n outH outW : Z) :
  1 <= n -> outH < 0 ->
  make3D n outH outW = Panic makeslice_len_out_of_range.
Proof.
  intros Hn Hh. unfold make3D. rewrite make_nonneg by lia. simpl.
  rewrite len_replicate, Z2Nat.id by lia.
  apply for_upto_first_panic; [exact Hn|].
  unfold make2D. rewrite make_negative by exact Hh. reflexivity.
Qed.

Lemma make3D_zero_height (n outW : Z) :
  0 <= n -> make3D n 0 outW = Ok (replicate (Z.to_nat n) []).
Proof.
  intros Hn. unfold make3D. rewrite make_nonneg by exact Hn. simpl.
  rewrite len_replicate, Z2Nat.id by exact Hn.
  rewrite (fill1 _ (fun _ => []) n).
  - rewrite fmap_const_seqZ. reflexivity.
  - rewrite len_replicate. lia.
  - intros i s Hi. reflexivity.
Qed.

Section PoolUnchecked.

Variables (mpl : MaxPoolLayer.t) (input : Tensor3D).
Variables (in0 : Grid2D) (in00 : list float64).

Hypothesis Hin0 : index input 0 = Ok in0.
Hypothesis Hin00 : index in0 0 = Ok in00.

Lemma MaxPoolLayer_zero_stride :
  MaxPoolLayer.Stride mpl = 0 ->
  MaxPoolLayer.Forward mpl input = Panic integer_divide_by_zero.
Proof using All.
  intros Hs. unfold MaxPoolLayer.Forward.
  rewrite Hin0. simpl. rewrite Hin00. simpl.
  unfold MaxPoolLayer.out_dim. rewrite Hs. reflexivity.
Qed.

Lemma MaxPoolLayer_negative_height (outH outW : Z) :
  MaxPoolLayer.out_dim (len in0) (MaxPoolLayer.PoolSize mpl)
    (MaxPoolLayer.Stride mpl) = Ok outH ->
  MaxPoolLayer.out_dim (len in00) (MaxPoolLayer.PoolSize mpl)
    (MaxPoolLayer.Stride mpl) = Ok outW ->
  outH < 0 ->
  MaxPoolLayer.Forward mpl input = Panic makeslice_len_out_of_range.
Proof using All.
  intros HoH HoW Hneg. unfold MaxPoolLayer.Forward.
  rewrite Hin0. simpl. rewrite Hin00. simpl. rewrite HoH. simpl.
  rewrite HoW. simpl.
  rewrite make3D_negative_height; [reflexivity| |exact Hneg].
  apply index_Ok_range in Hin0. lia.
Qed.

Lemma MaxPoolLayer_zero_height (outW : Z) :
  MaxPoolLayer.out_dim (len in0) (MaxPoolLayer.PoolSize mpl)
    (MaxPoolLayer.Stride mpl) = Ok 0 ->
  MaxPoolLayer.out_dim (len in00) (MaxPoolLayer.PoolSize mpl)
    (MaxPoolLayer.Stride mpl) = Ok outW ->
  MaxPoolLayer.Forward mpl input = Ok (replicate (length input) []).
Proof using All.
  intros HoH HoW. unfold MaxPoolLayer.Forward.
  rewrite Hin0. simpl. rewrite Hin00. simpl. rewrite HoH. simpl.
  rewrite HoW. simpl.
  rewrite make3D_zero_height by apply len_nonneg. simpl.
  replace (Z.to_nat (len input)) with (length input) by (unfold len; lia).
  apply for_upto_skip. intros c t Hc. apply for_upto_nonpos. lia.
Qed.

End PoolUnchecked.

Section ConvUnchecked.

Variables (cl : ConvLayer.t) (input : Tensor3D).
Variables (f0 : Tensor3D) (f00 : Grid2D) (f000 : list float64).
Variables (in0 : Grid2D) (in00 : list float64).

Hypothesis Hf0 : index (ConvLayer.Filters cl) 0 = Ok f0.
Hypothesis Hf00 : index f0 0 = Ok f00.
Hypothesis Hf000 : index f00 0 = Ok f000.
Hypothesis Hin0 : index input 0 = Ok in0.
Hypothesis Hin00 : index in0 0 = Ok in00.

Lemma ConvLayer_zero_stride :
  ConvLayer.Stride cl = 0 ->
  ConvLayer.Forward cl input = Panic integer_divide_by_zero.
Proof using All.
  intros Hs. unfold ConvLayer.Forward.
  rewrite Hf0. simpl. rewrite Hf00. simpl. rewrite Hf000. simpl.
  rewrite Hin0. simpl. rewrite Hin00. simpl.
  unfold ConvLayer.out_dim. rewrite Hs. reflexivity.
Qed.

Lemma ConvLayer_negative_height (outH outW : Z) :
  ConvLayer.out_dim (len in0) (ConvLayer.Padding cl) (len f00)
    (ConvLayer.Stride cl) = Ok outH ->
  ConvLayer.out_dim (len in00) (ConvLayer.Padding cl) (len f000)
    (ConvLayer.Stride cl) = Ok outW ->
  outH < 0 ->
  ConvLayer.Forward cl input = Panic makeslice_len_out_of_range.
Proof using All.
  intros HoH HoW Hneg. unfold ConvLayer.Forward.
  rewrite Hf0. simpl. rewrite Hf00. simpl. rewrite Hf000. simpl.
  rewrite Hin0. simpl. rewrite Hin00. simpl. rewrite HoH. simpl.
  rewrite HoW. simpl.
  rewrite make3D_negative_height; [reflexivity| |exact Hneg].
  apply index_Ok_range in Hf0. lia.
Qed.

Lemma ConvLayer_zero_height (outW : Z) :
  ConvLayer.Padding cl = 0 ->
  ConvLayer.out_dim (len in0) (ConvLayer.Padding cl) (len f00)
    (ConvLayer.Stride cl) = Ok 0 ->
  ConvLayer.out_dim (len in00) (ConvLayer.Padding cl) (len f000)
    (ConvLayer.Stride cl) = Ok outW ->
  ConvLayer.Forward cl input
  = Ok (replicate (length (ConvLayer.Filters cl)) []).
Proof using All.
  intros Hp HoH HoW. unfold ConvLayer.Forward.
  rewrite Hf0. simpl. rewrite Hf00. simpl. rewrite Hf000. simpl.
  rewrite Hin0. simpl. rewrite Hin00. simpl. rewrite HoH. simpl.
  rewrite HoW. simpl.
  rewrite make3D_zero_height by apply len_nonneg. simpl.
  rewrite make_nonneg by apply len_nonneg. simpl.
  rewrite len_replicate, Z2Nat.id by apply len_nonneg.
  rewrite (fill1 _ (fun c => value2 input c) (len input)).
  - simpl.
    replace (Z.to_nat (len (ConvLayer.Filters cl)))
      with (length (ConvLayer.Filters cl)) by (unfold len; lia).
    apply for_upto_skip. intros f t Hf. apply for_upto_nonpos. lia.
  - rewrite len_replicate. pose proof (len_nonneg input). lia.
  - intros c s Hc. destruct (index_in_range input c Hc) as [ic Hic].
    rewrite Hic. simpl. rewrite Hp. simpl.
    unfold value2. rewrite Hic. reflexivity.
Qed.

End ConvUnchecked.

(** * Concrete runs *)

(** Go's division truncates toward zero: on a negative numerator the
    expression of lines 82 and 83 and the floor formula differ, and the
    window the layer then generates runs past the input. *)
Remark out_dim_truncates :
  MaxPoolLayer.out_dim 2 3 2 = Ok 1
  /\ output_size 2 3 2 0 = 0
  /\ MaxPoolLayer.Forward pool_3x3_stride_2 [ones 2 2]
     = Panic index_out_of_range.
Proof. repeat split; vm_compute; reflexivity. Qed.

Example relu_values :
  relu (-3)%float = 0%float /\ relu 2.5%float = 2.5%float
  /\ relu neg_zero = 0%float /\ relu nan = nan
  /\ relu infinity = infinity /\ relu neg_infinity = 0%float.
Proof. repeat split; vm_compute; reflexivity. Qed.

Example pool_ramp_run :
  MaxPoolLayer.Forward pool_2x2 ramp_4x4 = Ok [[[6; 8]; [14; 16]]]%float.
Proof. vm_compute. reflexivity. Qed.

Example flatten_ramp_run :
  FlattenLayer.Forward ramp_3x3 = Ok [1; 2; 3; 4; 5; 6; 7; 8; 9]%float.
Proof. vm_compute. reflexivity. Qed.

Example dense_identity_run :
  DenseLayer.Forward dense_identity [3; 4]%float = Ok [3; 4]%float.
Proof. vm_compute. reflexivity. Qed.

Example dense_long_input_run :
  DenseLayer.Forward dense_1x2 [3; 4; 5]%float = Panic index_out_of_range.
Proof. vm_compute. reflexivity. Qed.

Example conv_extra_channel_run :
  ConvLayer.Forward conv_3x3_ones [ones 4 4; ones 4 4]
  = Panic index_out_of_range.
Proof. vm_compute. reflexivity. Qed.

Example pool_zero_stride_run :
  MaxPoolLayer.Forward pool_stride_zero [ones 2 2]
  = Panic integer_divide_by_zero.
Proof. vm_compute. reflexivity. Qed.

(** * The properties of the specification *)

Ltac solve_rect :=
  repeat first
    [ reflexivity
    | apply Forall_nil_2
    | apply Forall_cons_2
    | split ].

(** C2: for every input size, kernel (or pool) size >= 1, stride >= 1 and
    padding >= 0 whose padded size fits Go's [int] and whose resulting
    size [floor((inputSize + 2*padding - kernelSize) / stride) + 1] is at
    least 1, the expression the convolution layer evaluates for its
    output height and for its output width returns exactly that size, and
    so does the expression of the pooling layer (which has no padding);
    in particular inputSize = kernelSize with stride 1 and padding 0
    gives 1. *)
Theorem output_dimension_formula (inputSize kernelSize stride padding : Z) :
  0 <= inputSize -> 1 <= kernelSize -> 1 <= stride -> 0 <= padding ->
  inputSize + 2 * padding <= GoInt.max_int ->
  1 <= output_size inputSize kernelSize stride padding ->
  ConvLayer.out_dim inputSize padding kernelSize stride
  = Ok (output_size inputSize kernelSize stride padding)
  /\ (padding = 0 ->
      MaxPoolLayer.out_dim inputSize kernelSize stride
      = Ok (output_size inputSize kernelSize stride 0))
  /\ (inputSize = kernelSize -> stride = 1 -> padding = 0 ->
      output_size inputSize kernelSize stride padding = 1).
Proof.
  intros Hn Hk Hs Hp Hfit Hpos.
  apply output_size_ge_1 in Hpos; [|exact Hs].
  split; [|split].
  - apply conv_out_dim_spec; assumption.
  - intros ->. apply pool_out_dim_spec; lia.
  - intros -> -> ->. unfold output_size.
    replace (kernelSize + 2 * 0 - kernelSize) with 0 by lia.
    reflexivity.
Qed.

Lemma output_dimension_formula_witness :
  ConvLayer.out_dim 5 0 5 1 = Ok (output_size 5 5 1 0)
  /\ (0 = 0 ->
      MaxPoolLayer.out_dim 5 5 1 = Ok (output_size 5 5 1 0))
  /\ (5 = 5 -> 1 = 1 -> 0 = 0 -> output_size 5 5 1 0 = 1).
Proof.
  apply (output_dimension_formula 5 5 1 0); try lia.
  - vm_compute. discriminate.
  - vm_compute. discriminate.
Defined.












(** C9: [ConvLayer.Forward] on a 1-channel 4×4 input of all 1.0s with a
    single 3×3 filter of all 1.0s, bias 0, stride 1 and padding 1
    returns exactly one 4×4 output channel in which each corner cell is
    4, each edge cell that is not a corner is 6, and each interior cell
    is 9. *)
Theorem conv_ones_scenario :
  exists output,
    ConvLayer.Forward conv_3x3_ones [ones 4 4] = Ok output
    /\ output = [[[4; 6; 6; 4]; [6; 9; 9; 6]; [6; 9; 9; 6]; [4; 6; 6; 4]]]%float
    /\ rect3 output 1 4 4
    /\ forall y x, 0 <= y < 4 -> 0 <= x < 4 ->
         at3 output 0 y x
         = Ok (if on_border y && on_border x then 4%float
               else if on_border y || on_border x then 6%float
               else 9%float).
Proof.
  eexists. split; [vm_compute; reflexivity|]. split; [reflexivity|].
  split; [solve_rect|].
  intros y x Hy Hx.
  assert (Hy' : y = 0 \/ y = 1 \/ y = 2 \/ y = 3) by lia.
  assert (Hx' : x = 0 \/ x = 1 \/ x = 2 \/ x = 3) by lia.
  destruct Hy' as [->|[->|[->| ->]]]; destruct Hx' as [->|[->|[->| ->]]];
    reflexivity.
Qed.

(** C10, as amended: every value produced by [ConvLayer.Forward] and
    [DenseLayer.Forward] is NaN or non-negative, never negative: relu is
    applied to every output cell before it leaves the layer, relu keeps a
    NaN, and it is non-negative on everything else.
    [MaxPoolLayer.Forward] and [FlattenLayer.Forward] preserve
    elementwise non-negativity, and also this weaker property; hence
    every intermediate tensor after the first convolution, and the final
    class-score vector, are elementwise NaN or >= 0. *)
Theorem activations_not_negative :
  (forall x, nonneg_or_nan (relu x))
  /\ (forall x, math.IsNaN x = false -> nonneg (relu x))
  /\ (forall v, nonneg_or_nan v -> (v <? 0)%float = false)
  /\ (forall cl input output,
        ConvLayer.Forward cl input = Ok output ->
        all_cells nonneg_or_nan output)
  /\ (forall dl input output,
        DenseLayer.Forward dl input = Ok output ->
        Forall nonneg_or_nan output)
  /\ (forall mpl input output,
        MaxPoolLayer.Forward mpl input = Ok output ->
        (all_cells nonneg input -> all_cells nonneg output)
        /\ (all_cells nonneg_or_nan input -> all_cells nonneg_or_nan output))
  /\ (forall input output,
        FlattenLayer.Forward input = Ok output ->
        (all_cells nonneg input -> Forall nonneg output)
        /\ (all_cells nonneg_or_nan input -> Forall nonneg_or_nan output))
  /\ (forall conv1 pool1 conv2 pool2 dense1 dense2
             input x1 x2 x3 x4 flatX denseOut output,
        ConvLayer.Forward conv1 input = Ok x1 ->
        MaxPoolLayer.Forward pool1 x1 = Ok x2 ->
        ConvLayer.Forward conv2 x2 = Ok x3 ->
        MaxPoolLayer.Forward pool2 x3 = Ok x4 ->
        FlattenLayer.Forward x4 = Ok flatX ->
        DenseLayer.Forward dense1 flatX = Ok denseOut ->
        DenseLayer.Forward dense2 denseOut = Ok output ->
        all_cells nonneg_or_nan x1 /\ all_cells nonneg_or_nan x2
        /\ all_cells nonneg_or_nan x3 /\ all_cells nonneg_or_nan x4
        /\ Forall nonneg_or_nan flatX /\ Forall nonneg_or_nan denseOut
        /\ Forall nonneg_or_nan output).
Proof.
  assert (Hzero : nonneg 0%float) by reflexivity.
  assert (Hzero' : nonneg_or_nan 0%float) by (right; reflexivity).
  assert (Hconv : forall cl input output,
            ConvLayer.Forward cl input = Ok output ->
            all_cells nonneg_or_nan output).
  { intros cl input output.
    apply ConvLayer_Forward_cells; [exact Hzero'|apply relu_nonneg_or_nan]. }
  assert (Hdense : forall dl input output,
            DenseLayer.Forward dl input = Ok output ->
            Forall nonneg_or_nan output).
  { intros dl input output.
    apply DenseLayer_Forward_cells; [exact Hzero'|apply relu_nonneg_or_nan]. }
  split; [exact relu_nonneg_or_nan|].
  split; [exact relu_nonneg|].
  split; [exact nonneg_or_nan_not_negative|].
  split; [exact Hconv|]. split; [exact Hdense|].
  split; [|split].
  - intros mpl input output Hfwd. split; intros Hin.
    + exact (MaxPoolLayer_Forward_cells nonneg Hzero mpl input output Hin Hfwd).
    + exact (MaxPoolLayer_Forward_cells nonneg_or_nan Hzero' mpl input output
               Hin Hfwd).
  - intros input output Hfwd. split; intros Hin.
    + exact (FlattenLayer_Forward_cells nonneg Hzero input output Hin Hfwd).
    + exact (FlattenLayer_Forward_cells nonneg_or_nan Hzero' input output
               Hin Hfwd).
  - intros conv1 pool1 conv2 pool2 dense1 dense2
           input x1 x2 x3 x4 flatX denseOut output H1 H2 H3 H4 H5 H6 H7.
    pose proof (Hconv _ _ _ H1) as K1.
    pose proof (MaxPoolLayer_Forward_cells nonneg_or_nan Hzero' _ _ _ K1 H2)
      as K2.
    pose proof (Hconv _ _ _ H3) as K3.
    pose proof (MaxPoolLayer_Forward_cells nonneg_or_nan Hzero' _ _ _ K3 H4)
      as K4.
    pose proof (FlattenLayer_Forward_cells nonneg_or_nan Hzero' _ _ K4 H5)
      as K5.
    repeat split; eauto.
Qed.

Lemma activations_not_negative_witness :
  nonneg_or_nan (relu nan)
  /\ nonneg (relu (-3)%float)
  /\ Forall nonneg_or_nan [nan]
  /\ all_cells nonneg [[[6; 8]; [14; 16]]]%float.
Proof.
  destruct activations_not_negative
    as (Hrelu & Hpos & _ & _ & Hdense & Hpool & _).
  split; [|split; [|split]].
  - apply Hrelu.
  - apply Hpos. reflexivity.
  - apply (Hdense dense_zero [infinity]). reflexivity.
  - apply (Hpool pool_2x2 ramp_4x4); [reflexivity|].
    unfold all_cells, nonneg, ramp_4x4. solve_rect.
Defined.

(** C10 as stated fails by overflow: a dense layer with a finite weight
    on a finite input returns +Inf, the next dense layer multiplies it by
    a zero weight, and its output is NaN, which is not >= 0. *)
Lemma dense_nan_counterexample :
  DenseLayer.Forward dense_overflow [2%float] = Ok [infinity]
  /\ DenseLayer.Forward dense_zero [infinity] = Ok [nan]
  /\ (0 <=? nan)%float = false.
Proof. repeat split; vm_compute; reflexivity. Qed.




(** C4, as amended: the layers validate no configuration.  At first use a
    zero stride makes [Forward] panic with Go's integer-divide-by-zero
    run-time error, and a negative computed output height makes it panic
    at allocation; a computed output height of exactly 0 (a pool size or
    kernel one larger than the input with stride 1, say) makes [Forward]
    return normally a tensor whose channels are all empty, with no error
    (for the convolution, shown without padding). *)
Theorem unchecked_configuration :
  (forall mpl input in0 in00,
     index input 0 = Ok in0 -> index in0 0 = Ok in00 ->
     (MaxPoolLayer.Stride mpl = 0 ->
      MaxPoolLayer.Forward mpl input = Panic integer_divide_by_zero)
     /\ (forall outH outW,
           MaxPoolLayer.out_dim (len in0) (MaxPoolLayer.PoolSize mpl)
             (MaxPoolLayer.Stride mpl) = Ok outH ->
           MaxPoolLayer.out_dim (len in00) (MaxPoolLayer.PoolSize mpl)
             (MaxPoolLayer.Stride mpl) = Ok outW ->
           (outH < 0 ->
            MaxPoolLayer.Forward mpl input = Panic makeslice_len_out_of_range)
           /\ (outH = 0 ->
               MaxPoolLayer.Forward mpl input
               = Ok (replicate (length input) []))))
  /\ (forall cl input f0 f00 f000 in0 in00,
        index (ConvLayer.Filters cl) 0 = Ok f0 ->
        index f0 0 = Ok f00 -> index f00 0 = Ok f000 ->
        index input 0 = Ok in0 -> index in0 0 = Ok in00 ->
        (ConvLayer.Stride cl = 0 ->
         ConvLayer.Forward cl input = Panic integer_divide_by_zero)
        /\ (forall outH outW,
              ConvLayer.out_dim (len in0) (ConvLayer.Padding cl) (len f00)
                (ConvLayer.Stride cl) = Ok outH ->
              ConvLayer.out_dim (len in00) (ConvLayer.Padding cl) (len f000)
                (ConvLayer.Stride cl) = Ok outW ->
              (outH < 0 ->
               ConvLayer.Forward cl input = Panic makeslice_len_out_of_range)
              /\ (outH = 0 -> ConvLayer.Padding cl = 0 ->
                  ConvLayer.Forward cl input
                  = Ok (replicate (length (ConvLayer.Filters cl)) [])))).
Proof.
  split.
  - intros mpl input in0 in00 Hin0 Hin00. split.
    + apply (MaxPoolLayer_zero_stride mpl input in0 in00 Hin0 Hin00).
    + intros outH outW HoH HoW. split.
      * apply (MaxPoolLayer_negative_height mpl input in0 in00 Hin0 Hin00
                 outH outW HoH HoW).
      * intros ->.
        apply (MaxPoolLayer_zero_height mpl input in0 in00 Hin0 Hin00
                 outW HoH HoW).
  - intros cl input f0 f00 f000 in0 in00 Hf0 Hf00 Hf000 Hin0 Hin00. split.
    + apply (ConvLayer_zero_stride cl input f0 f00 f000 in0 in00
               Hf0 Hf00 Hf000 Hin0 Hin00).
    + intros outH outW HoH HoW. split.
      * apply (ConvLayer_negative_height cl input f0 f00 f000 in0 in00
                 Hf0 Hf00 Hf000 Hin0 Hin00 outH outW HoH HoW).
      * intros -> Hp.
        apply (ConvLayer_zero_height cl input f0 f00 f000 in0 in00
                 Hf0 Hf00 Hf000 Hin0 Hin00 outW Hp HoH HoW).
Qed.

Lemma unchecked_configuration_witness :
  MaxPoolLayer.Forward pool_stride_zero [ones 2 2]
  = Panic integer_divide_by_zero
  /\ MaxPoolLayer.Forward pool_3x3 [ones 2 2]
     = Ok (replicate (length [ones 2 2]) [])
  /\ ConvLayer.Forward conv_stride_zero [ones 4 4]
     = Panic integer_divide_by_zero
  /\ ConvLayer.Forward conv_3x3_no_padding [ones 2 2]
     = Ok (replicate (length (ConvLayer.Filters conv_3x3_no_padding)) []).
Proof.
  destruct unchecked_configuration as (Hpool & Hconv).
  split; [|split; [|split]].
  - apply (Hpool pool_stride_zero [ones 2 2] (ones 2 2) [1; 1]%float);
      reflexivity.
  - apply (Hpool pool_3x3 [ones 2 2] (ones 2 2) [1; 1]%float eq_refl eq_refl)
      with (outH := 0) (outW := 0); reflexivity.
  - apply (Hconv conv_stride_zero [ones 4 4] [ones 3 3] (ones 3 3)
             [1; 1; 1]%float (ones 4 4) [1; 1; 1; 1]%float);
      reflexivity.
  - apply (Hconv conv_3x3_no_padding [ones 2 2] [ones 3 3] (ones 3 3)
             [1; 1; 1]%float (ones 2 2) [1; 1]%float
             eq_refl eq_refl eq_refl eq_refl eq_refl)
      with (outH := 0) (outW := 0); reflexivity.
Defined.

(** C4 as stated fails on its own example: a pool size of 3 on a 2×2
    input computes an output size of 0 and [Forward] returns an empty
    channel without failing; and a pool size of 0 is accepted and gives
    an output. *)
Lemma unchecked_configuration_counterexample :
  MaxPoolLayer.out_dim 2 3 1 = Ok 0
  /\ MaxPoolLayer.Forward pool_3x3 [ones 2 2] = Ok [[]]
  /\ MaxPoolLayer.Forward pool_size_zero ramp_3x3
     = Ok [[[1; 3]; [7; 9]]]%float.
Proof. repeat split; vm_compute; reflexivity. Qed.

(** * The rest of the program: initialization, diagnostics and [main] *)

(** ** The initialization helpers *)

Lemma fmap_seqZ_ext {A : Type} (f g : Z -> A) (n : Z) :
  (forall i, 0 <= i < n -> f i = g i) -> f <$> seqZ 0 n = g <$> seqZ 0 n.
Proof.
  intros H. destruct (Z.le_gt_cases 0 n) as [Hn|Hn].
  - apply tabulate_eq.
    + apply len_fmap_seqZ, Hn.
    + intros i Hi. rewrite index_fmap_seqZ by exact Hi. f_equal. symmetry. auto.
  - rewrite !seqZ_nil by lia. reflexivity.
Qed.

(** A loop that assigns [s[i]] a value made from a state it passes on
    returns normally with the slice of the values and the last state. *)
Lemma fill_threaded {A G : Type}
  (body : Z -> list A * G -> result (list A * G))
  (val : G -> A) (next : G -> G) (n : Z) (s0 : list A) (g0 : G) :
  len s0 = n ->
  (forall i s g, 0 <= i < n ->
     body i (s, g) = (s' <- store s i (val g) ;; Ok (s', next g))) ->
  for_upto n body (s0, g0)
  = Ok ((fun i => val (Nat.iter (Z.to_nat i) next g0)) <$> seqZ 0 n,
        Nat.iter (Z.to_nat n) next g0).
Proof.
  intros Hlen Hbody.
  assert (Hn : 0 <= n) by (rewrite <- Hlen; apply len_nonneg).
  set (vals := fun i => val (Nat.iter (Z.to_nat i) next g0)).
  destruct (for_upto_inv
              (fun i st => st = ((vals <$> seqZ 0 i) ++ drop (Z.to_nat i) s0,
                                 Nat.iter (Z.to_nat i) next g0))
              body n (s0, g0) Hn) as (s' & Hl & ->).
  - reflexivity.
  - intros i st Hi ->. rewrite Hbody by exact Hi.
    assert (Hlen1 : length (vals <$> seqZ 0 i) = Z.to_nat i).
    { rewrite length_fmap, length_seqZ. reflexivity. }
    destruct (lookup_lt_is_Some_2 s0 (Z.to_nat i)) as [a Ha].
    { unfold len in Hlen. lia. }
    rewrite store_in_range.
    2:{ unfold len. rewrite length_app, Hlen1, length_drop.
        unfold len in Hlen. lia. }
    eexists. split; [reflexivity|].
    rewrite insert_app_r_alt by lia.
    rewrite Hlen1, Nat.sub_diag.
    rewrite (drop_S _ _ _ Ha). simpl.
    replace (Z.to_nat (i + 1)) with (Datatypes.S (Z.to_nat i)) by lia.
    rewrite (seqZ_app 0 i 1) by lia.
    rewrite fmap_app, <- app_assoc. simpl. reflexivity.
  - rewrite Hl. f_equal. f_equal.
    rewrite drop_ge by (unfold len in Hlen; lia).
    apply app_nil_r.
Qed.

Section RandomFacts.

Context {Rng : Type} (NormFloat64 : Rng -> float64 * Rng).

Lemma advance_add (a b : Z) (g : Rng) :
  0 <= a -> 0 <= b ->
  advance NormFloat64 (a + b) g = advance NormFloat64 b (advance NormFloat64 a g).
Proof.
  intros Ha Hb. unfold advance.
  rewrite Z2Nat.inj_add by assumption.
  rewrite Nat.add_comm. apply Nat.iter_add.
Qed.

Lemma weight_advance (a j : Z) (g : Rng) :
  0 <= a -> 0 <= j ->
  weight NormFloat64 j (advance NormFloat64 a g) = weight NormFloat64 (a + j) g.
Proof.
  intros Ha Hj. unfold weight. rewrite advance_add by assumption. reflexivity.
Qed.

Lemma iter_advance (k : Z) (i : nat) (g : Rng) :
  0 <= k ->
  Nat.iter i (advance NormFloat64 k) g = advance NormFloat64 (Z.of_nat i * k) g.
Proof.
  intros Hk. induction i as [|i IH]; [reflexivity|].
  simpl Nat.iter. rewrite IH.
  replace (Z.of_nat (S i) * k) with (Z.of_nat i * k + k) by lia.
  rewrite advance_add by lia. reflexivity.
Qed.

Lemma randomArray_spec (size : Z) (g : Rng) :
  0 <= size ->
  randomArray NormFloat64 size g
  = Ok ((fun i => weight NormFloat64 i g) <$> seqZ 0 size,
        advance NormFloat64 size g).
Proof.
  intros Hsize. unfold randomArray.
  rewrite make_nonneg by exact Hsize. simpl.
  rewrite len_replicate, Z2Nat.id by exact Hsize.
  rewrite (fill_threaded _ (fun g => (fst (NormFloat64 g) * one_tenth)%float)
             (fun g => snd (NormFloat64 g)) size).
  - reflexivity.
  - rewrite len_replicate. lia.
  - intros i s g1 Hi. destruct (NormFloat64 g1) as [v g2]. reflexivity.
Qed.

(** The rows of a matrix of [cols] columns drawn from [g] on. *)
Lemma randomMatrix_spec (rows cols : Z) (g : Rng) :
  0 <= rows -> 0 <= cols ->
  randomMatrix NormFloat64 rows cols g
  = Ok ((fun i => (fun j => weight NormFloat64 (i * cols + j) g)
                  <$> seqZ 0 cols) <$> seqZ 0 rows,
        advance NormFloat64 (rows * cols) g).
Proof.
  intros Hrows Hcols. unfold randomMatrix.
  rewrite make_nonneg by exact Hrows. simpl.
  rewrite len_replicate, Z2Nat.id by exact Hrows.
  rewrite (fill_threaded _
             (fun g => (fun j => weight NormFloat64 j g) <$> seqZ 0 cols)
             (advance NormFloat64 cols) rows).
  - f_equal. f_equal.
    + apply fmap_seqZ_ext. intros i Hi.
      rewrite iter_advance, Z2Nat.id by lia.
      apply fmap_seqZ_ext. intros j Hj.
      apply weight_advance; lia.
    + rewrite iter_advance, Z2Nat.id by lia. reflexivity.
  - rewrite len_replicate. lia.
  - intros i s g1 Hi. rewrite randomArray_spec by exact Hcols. reflexivity.
Qed.

End RandomFacts.

Lemma Forall_fmap_seqZ {A : Type} (P : A -> Prop) (f : Z -> A) (n : Z) :
  (forall i, 0 <= i < n -> P (f i)) -> Forall P (f <$> seqZ 0 n).
Proof.
  intros H. apply Forall_fmap, Forall_forall. intros i Hi.
  apply elem_of_seqZ in Hi. apply H. lia.
Qed.

Lemma rect2_tabulate (f : Z -> Z -> float) (h w : Z) :
  0 <= h -> 0 <= w ->
  rect2 ((fun i => (fun j => f i j) <$> seqZ 0 w) <$> seqZ 0 h) h w.
Proof.
  intros Hh Hw. split; [apply len_fmap_seqZ, Hh|].
  apply Forall_fmap_seqZ. intros i _. apply len_fmap_seqZ, Hw.
Qed.

Lemma at2_tabulate (f : Z -> Z -> float) (h w i j : Z) :
  0 <= i < h -> 0 <= j < w ->
  at2 ((fun i => (fun j => f i j) <$> seqZ 0 w) <$> seqZ 0 h) i j = Ok (f i j).
Proof.
  intros Hi Hj. unfold at2. rewrite index_fmap_seqZ by exact Hi. simpl.
  apply index_fmap_seqZ, Hj.
Qed.

Section RandomFilters.

Context {Rng : Type} (NormFloat64 : Rng -> float64 * Rng).

Lemma randomKernel_spec (height width : Z) (g : Rng) :
  0 <= height -> 0 <= width ->
  randomKernel NormFloat64 height width g
  = Ok ((fun h => (fun w => weight NormFloat64 (h * width + w) g)
                  <$> seqZ 0 width) <$> seqZ 0 height,
        advance NormFloat64 (height * width) g).
Proof. apply randomMatrix_spec. Qed.

Lemma randomFilter_spec (channels height width : Z) (g : Rng) :
  0 <= channels -> 0 <= height -> 0 <= width ->
  randomFilter NormFloat64 channels height width g
  = Ok ((fun c => (fun h => (fun w =>
           weight NormFloat64 ((c * height + h) * width + w) g)
           <$> seqZ 0 width) <$> seqZ 0 height) <$> seqZ 0 channels,
        advance NormFloat64 (channels * height * width) g).
Proof.
  intros Hc Hh Hw. unfold randomFilter.
  rewrite make_nonneg by exact Hc. simpl.
  rewrite len_replicate, Z2Nat.id by exact Hc.
  assert (Hhw : 0 <= height * width) by (apply Z.mul_nonneg_nonneg; assumption).
  rewrite (fill_threaded _
             (fun g => (fun h => (fun w => weight NormFloat64 (h * width + w) g)
                                 <$> seqZ 0 width) <$> seqZ 0 height)
             (advance NormFloat64 (height * width)) channels).
  - f_equal. f_equal.
    + apply fmap_seqZ_ext. intros c Hc'.
      rewrite iter_advance, Z2Nat.id by lia.
      apply fmap_seqZ_ext. intros h Hh'.
      apply fmap_seqZ_ext. intros w Hw'.
      assert (0 <= c * (height * width)) by (apply Z.mul_nonneg_nonneg; lia).
      assert (0 <= h * width) by (apply Z.mul_nonneg_nonneg; lia).
      rewrite weight_advance by lia. f_equal. ring.
    + rewrite iter_advance, Z2Nat.id by lia. f_equal. ring.
  - rewrite len_replicate. lia.
  - intros c s g1 Hc'. rewrite randomKernel_spec by assumption. reflexivity.
Qed.

Lemma randomFilters_spec (num channels height width : Z) (g : Rng) :
  0 <= num -> 0 <= channels -> 0 <= height -> 0 <= width ->
  randomFilters NormFloat64 num channels height width g
  = Ok ((fun f => (fun c => (fun h => (fun w =>
           weight NormFloat64 (((f * channels + c) * height + h) * width + w) g)
           <$> seqZ 0 width) <$> seqZ 0 height) <$> seqZ 0 channels)
           <$> seqZ 0 num,
        advance NormFloat64 (num * channels * height * width) g).
Proof.
  intros Hn Hc Hh Hw. unfold randomFilters.
  rewrite make_nonneg by exact Hn. simpl.
  rewrite len_replicate, Z2Nat.id by exact Hn.
  assert (Hhw : 0 <= height * width) by (apply Z.mul_nonneg_nonneg; assumption).
  assert (Hchw : 0 <= channels * height * width).
  { rewrite <- Z.mul_assoc. apply Z.mul_nonneg_nonneg; assumption. }
  rewrite (fill_threaded _
             (fun g => (fun c => (fun h => (fun w =>
                weight NormFloat64 ((c * height + h) * width + w) g)
                <$> seqZ 0 width) <$> seqZ 0 height) <$> seqZ 0 channels)
             (advance NormFloat64 (channels * height * width)) num).
  - f_equal. f_equal.
    + apply fmap_seqZ_ext. intros f Hf.
      rewrite iter_advance, Z2Nat.id by lia.
      apply fmap_seqZ_ext. intros c Hc'.
      apply fmap_seqZ_ext. intros h Hh'.
      apply fmap_seqZ_ext. intros w Hw'.
      assert (0 <= f * (channels * height * width))
        by (apply Z.mul_nonneg_nonneg; lia).
      assert (0 <= c * height) by (apply Z.mul_nonneg_nonneg; lia).
      assert (0 <= (c * height + h) * width)
        by (apply Z.mul_nonneg_nonneg; lia).
      rewrite weight_advance by lia. f_equal. ring.
    + rewrite iter_advance, Z2Nat.id by lia. f_equal. ring.
  - rewrite len_replicate. lia.
  - intros f s g1 Hf. rewrite randomFilter_spec by assumption. reflexivity.
Qed.

Lemma randomFilters_rect4 (num channels height width : Z) (g : Rng) :
  0 <= num -> 0 <= channels -> 0 <= height -> 0 <= width ->
  exists fb,
    randomFilters NormFloat64 num channels height width g
    = Ok (fb, advance NormFloat64 (num * channels * height * width) g)
    /\ rect4 fb num channels height width
    /\ forall f c h w, 0 <= f < num -> 0 <= c < channels ->
         0 <= h < height -> 0 <= w < width ->
         at4 fb f c h w
         = Ok (weight NormFloat64
                 (((f * channels + c) * height + h) * width + w) g).
Proof.
  intros Hn Hc Hh Hw. eexists. split; [apply randomFilters_spec; assumption|].
  split.
  - split; [apply len_fmap_seqZ, Hn|].
    apply Forall_fmap_seqZ. intros f _.
    split; [apply len_fmap_seqZ, Hc|].
    apply Forall_fmap_seqZ. intros c _.
    apply rect2_tabulate; assumption.
  - intros f c h w Hf Hc' Hh' Hw'. unfold at4, at3.
    rewrite index_fmap_seqZ by exact Hf. simpl.
    rewrite index_fmap_seqZ by exact Hc'. simpl.
    apply (at2_tabulate
             (fun h w => weight NormFloat64
                (((f * channels + c) * height + h) * width + w) g));
      assumption.
Qed.

Lemma randomMatrix_rect2 (rows cols : Z) (g : Rng) :
  0 <= rows -> 0 <= cols ->
  exists m,
    randomMatrix NormFloat64 rows cols g
    = Ok (m, advance NormFloat64 (rows * cols) g)
    /\ rect2 m rows cols
    /\ forall i j, 0 <= i < rows -> 0 <= j < cols ->
         at2 m i j = Ok (weight NormFloat64 (i * cols + j) g).
Proof.
  intros Hr Hc. eexists. split; [apply randomMatrix_spec; assumption|].
  split; [apply rect2_tabulate; assumption|].
  intros i j Hi Hj.
  apply (at2_tabulate (fun i j => weight NormFloat64 (i * cols + j) g));
    assumption.
Qed.

Lemma randomArray_len (size : Z) (g : Rng) :
  0 <= size ->
  exists arr,
    randomArray NormFloat64 size g = Ok (arr, advance NormFloat64 size g)
    /\ len arr = size
    /\ forall i, 0 <= i < size -> index arr i = Ok (weight NormFloat64 i g).
Proof.
  intros Hs. eexists. split; [apply randomArray_spec, Hs|].
  split; [apply len_fmap_seqZ, Hs|].
  intros i Hi.
  exact (index_fmap_seqZ (fun i => weight NormFloat64 i g) size i Hi).
Qed.

(** Negative sizes. *)
Lemma randomArray_negative (size : Z) (g : Rng) :
  size < 0 -> randomArray NormFloat64 size g = Panic makeslice_len_out_of_range.
Proof. intros H. unfold randomArray. rewrite make_negative by exact H. reflexivity. Qed.

Lemma randomMatrix_negative (rows cols : Z) (g : Rng) :
  rows < 0 \/ (1 <= rows /\ cols < 0) ->
  randomMatrix NormFloat64 rows cols g = Panic makeslice_len_out_of_range.
Proof.
  intros [H|[Hr Hc]]; unfold randomMatrix.
  - rewrite make_negative by exact H. reflexivity.
  - rewrite make_nonneg by lia. simpl.
    apply for_upto_first_panic; [rewrite len_replicate; lia|].
    rewrite randomArray_negative by exact Hc. reflexivity.
Qed.

Lemma randomFilter_negative (channels height width : Z) (g : Rng) :
  channels < 0 \/ (1 <= channels /\ (height < 0 \/ (1 <= height /\ width < 0))) ->
  randomFilter NormFloat64 channels height width g
  = Panic makeslice_len_out_of_range.
Proof.
  intros [H|[Hc H]]; unfold randomFilter.
  - rewrite make_negative by exact H. reflexivity.
  - rewrite make_nonneg by lia. simpl.
    apply for_upto_first_panic; [rewrite len_replicate; lia|].
    rewrite (randomMatrix_negative height width g H
             : randomKernel NormFloat64 height width g = _).
    reflexivity.
Qed.

Lemma randomFilters_negative (num channels height width : Z) (g : Rng) :
  num < 0 \/ (1 <= num /\ (channels < 0 \/ (1 <= channels /\
     (height < 0 \/ (1 <= height /\ width < 0))))) ->
  randomFilters NormFloat64 num channels height width g
  = Panic makeslice_len_out_of_range.
Proof.
  intros [H|[Hn H]]; unfold randomFilters.
  - rewrite make_negative by exact H. reflexivity.
  - rewrite make_nonneg by lia. simpl.
    apply for_upto_first_panic; [rewrite len_replicate; lia|].
    rewrite (randomFilter_negative channels height width g H). reflexivity.
Qed.

End RandomFilters.

(** ** The dimension check *)

Lemma printDimensions_rect3 (label : string) (x : Tensor3D) (c h w : Z) :
  rect3 x c h w -> 1 <= c -> 1 <= h ->
  printDimensions label x
  = Ok (String.concat EmptyString
          [label; ": "%string; decimal c; " channels "%string;
           decimal h; "x"%string; decimal w; newline]).
Proof.
  intros Hx Hc Hh. unfold printDimensions.
  destruct (index_in_range x 0) as [x0 Hx0]; [destruct Hx; lia|].
  pose proof (rect3_index _ _ _ _ _ _ Hx Hx0) as Hr.
  destruct (index_in_range x0 0) as [x00 Hx00]; [destruct Hr; lia|].
  rewrite Hx0. simpl. rewrite Hx00. simpl.
  rewrite (rect2_index _ _ _ _ _ Hr Hx00).
  destruct Hx as [-> _]. destruct Hr as [-> _]. reflexivity.
Qed.

Lemma printDimensions_empty_channel (label : string) (x : Tensor3D) :
  index x 0 = Ok [] -> printDimensions label x = Panic index_out_of_range.
Proof. intros H. unfold printDimensions. rewrite H. reflexivity. Qed.

(** ** The input of [main] *)

Lemma sample_coord_spec (min d x : Z) :
  0 <= x < 28 -> 0 <= d -> 27 * d <= GoInt.max_int ->
  GoInt.min_int <= min -> min + d <= GoInt.max_int ->
  sample_coord min d x = Ok (min + x * d / 28)
  /\ min <= min + x * d / 28 <= min + d
  /\ (1 <= d -> min + x * d / 28 < min + d).
Proof.
  intros Hx Hd Hfit Hmin Hmax.
  assert (Hxd : 0 <= x * d <= 27 * d).
  { split; [apply Z.mul_nonneg_nonneg; lia|].
    apply Z.mul_le_mono_nonneg_r; lia. }
  assert (Hq0 : 0 <= x * d / 28) by (apply Z.div_pos; lia).
  assert (Hq1 : x * d / 28 <= d).
  { apply Z.div_le_upper_bound; lia. }
  split; [|split; [lia|]].
  - unfold sample_coord.
    rewrite GoIntFacts.mul_in_range
      by (unfold GoInt.in_range, GoInt.min_int, GoInt.max_int in *; lia).
    rewrite GoIntFacts.div_nonneg by lia. simpl.
    rewrite GoIntFacts.add_in_range
      by (unfold GoInt.in_range, GoInt.min_int, GoInt.max_int in *; lia).
    reflexivity.
  - intros Hd1.
    assert (x * d / 28 < d); [|lia].
    apply Z.div_lt_upper_bound; lia.
Qed.

Lemma intensity_unit (b : byte) :
  (0 <=? intensity b)%float = true /\ (intensity b <=? 1)%float = true.
Proof. destruct b; vm_compute; split; reflexivity. Qed.

Lemma PixOffset_28 (p : image.Gray) (x y : Z) :
  image.Stride p = 28 -> image.Bounds p = image.Rect 0 0 28 28 ->
  0 <= x < 28 -> 0 <= y < 28 ->
  image.PixOffset p x y = y * 28 + x.
Proof.
  intros HS HB Hx Hy. unfold image.PixOffset. rewrite HS, HB. simpl.
  unfold GoInt.add, GoInt.mul, GoInt.sub.
  rewrite !Z.sub_0_r, Z.mul_1_r.
  rewrite !(GoIntFacts.wrap_in_range x), (GoIntFacts.wrap_in_range y)
    by (unfold GoInt.in_range, GoInt.min_int, GoInt.max_int; lia).
  rewrite (GoIntFacts.wrap_in_range (y * 28))
    by (unfold GoInt.in_range, GoInt.min_int, GoInt.max_int; lia).
  apply GoIntFacts.wrap_in_range.
  unfold GoInt.in_range, GoInt.min_int, GoInt.max_int; lia.
Qed.

Lemma PointIn_28 (p : image.Gray) (x y : Z) :
  image.Bounds p = image.Rect 0 0 28 28 ->
  0 <= x < 28 -> 0 <= y < 28 ->
  image.PointIn x y (image.Bounds p) = true.
Proof.
  intros HB Hx Hy. rewrite HB. unfold image.PointIn. simpl.
  destruct (Z.leb_spec 0 x); [|lia]. destruct (Z.ltb_spec x 28); [|lia].
  destruct (Z.leb_spec 0 y); [|lia]. destruct (Z.ltb_spec y 28); [|lia].
  reflexivity.
Qed.

Lemma SetGray_28 (p : image.Gray) (x y : Z) (c : byte) :
  gray_28 p -> 0 <= x < 28 -> 0 <= y < 28 ->
  exists p',
    image.SetGray p x y c = Ok p' /\ gray_28 p'
    /\ index (image.Pix p') (y * 28 + x) = Ok c
    /\ forall k, k <> y * 28 + x ->
         index (image.Pix p') k = index (image.Pix p) k.
Proof.
  intros (HS & HB & HL) Hx Hy. unfold image.SetGray.
  rewrite PointIn_28, PixOffset_28 by assumption. simpl.
  destruct (store (image.Pix p) (y * 28 + x) c) as [pix|] eqn:Hst;
    [|rewrite store_in_range in Hst by lia; discriminate].
  simpl. eexists. split; [reflexivity|]. simpl. split; [|split].
  - split; [exact HS|]. split; [exact HB|].
    simpl. rewrite (store_len _ _ _ _ Hst). exact HL.
  - exact (index_store_eq _ _ _ _ Hst).
  - intros k Hk. apply (index_store_ne _ _ _ _ _ Hst). congruence.
Qed.

Lemma GrayAt_28 (p : image.Gray) (x y : Z) :
  image.Stride p = 28 -> image.Bounds p = image.Rect 0 0 28 28 ->
  0 <= x < 28 -> 0 <= y < 28 ->
  image.GrayAt p x y = index (image.Pix p) (y * 28 + x).
Proof.
  intros HS HB Hx Hy. unfold image.GrayAt.
  rewrite PointIn_28, PixOffset_28 by assumption. reflexivity.
Qed.

Lemma sample_coord_total (min d x : Z) :
  sample_coord min d x = Ok (source_coord min d x).
Proof. reflexivity. Qed.

Lemma resize_spec (img : image.Image) :
  exists resized,
    resize img = Ok resized /\ gray_28 resized
    /\ forall x y, 0 <= x < 28 -> 0 <= y < 28 ->
         image.GrayAt resized x y = Ok (sampled img x y).
Proof.
  pose (done (Y X : Z) (p : image.Gray) :=
    gray_28 p /\
    forall x y, 0 <= x < 28 -> 0 <= y < 28 ->
      y < Y \/ (y = Y /\ x < X) ->
      index (image.Pix p) (y * 28 + x) = Ok (sampled img x y)).
  assert (Hinner : forall Y p, 0 <= Y < 28 -> done Y 0 p ->
    exists p',
      for_upto 28
        (fun x resized =>
           srcX <- sample_coord (image.MinX (image.ImageBounds img))
                     (image.Dx (image.ImageBounds img)) x ;;
           srcY <- sample_coord (image.MinY (image.ImageBounds img))
                     (image.Dy (image.ImageBounds img)) Y ;;
           image.SetGray resized x Y (image.GrayOf img srcX srcY)) p = Ok p'
      /\ done (Y + 1) 0 p').
  { intros Y p HY H0.
    destruct (for_upto_inv (fun X p => done Y X p)
                (fun x resized =>
                   srcX <- sample_coord (image.MinX (image.ImageBounds img))
                             (image.Dx (image.ImageBounds img)) x ;;
                   srcY <- sample_coord (image.MinY (image.ImageBounds img))
                             (image.Dy (image.ImageBounds img)) Y ;;
                   image.SetGray resized x Y (image.GrayOf img srcX srcY))
                28 p ltac:(lia) H0) as (p' & Hl & Hg & Hc).
    - intros X p1 HX [Hg Hc]. rewrite !sample_coord_total. simpl bind.
      destruct (SetGray_28 p1 X Y (sampled img X Y) Hg HX HY)
        as (p2 & Hset & Hg2 & Hnew & Hold).
      exists p2. split; [exact Hset|]. split; [exact Hg2|].
      intros x y Hx Hy Hlt.
      destruct (Z.eq_dec (y * 28 + x) (Y * 28 + X)) as [E|E].
      + assert (y = Y /\ x = X) as [-> ->] by lia. exact Hnew.
      + rewrite Hold by exact E. apply Hc; [assumption..|]. lia.
    - exists p'. split; [exact Hl|]. split; [exact Hg|].
      intros x y Hx Hy Hlt. apply Hc; [assumption..|]. lia. }
  destruct (for_upto_inv (fun Y p => done Y 0 p)
              (fun y resized =>
                 for_upto 28
                   (fun x resized =>
                      srcX <- sample_coord (image.MinX (image.ImageBounds img))
                                (image.Dx (image.ImageBounds img)) x ;;
                      srcY <- sample_coord (image.MinY (image.ImageBounds img))
                                (image.Dy (image.ImageBounds img)) y ;;
                      image.SetGray resized x y (image.GrayOf img srcX srcY))
                   resized)
              28 image.NewGray28 ltac:(lia)) as (p & Hl & Hg & Hc).
  - split; [repeat split|]. intros; lia.
  - intros Y p HY H0. exact (Hinner Y p HY H0).
  - exists p. split; [exact Hl|]. split; [exact Hg|].
    intros x y Hx Hy. destruct Hg as (HS & HB & _).
    rewrite GrayAt_28 by assumption. apply Hc; [assumption..|]. lia.
Qed.

Section InputTensor.

Variables (resized : image.Gray) (pixel : Z -> Z -> byte).

Hypothesis Hpixel : forall x y, 0 <= x < 28 -> 0 <= y < 28 ->
  image.GrayAt resized x y = Ok (pixel x y).

Lemma input_tensor_spec :
  exists input,
    input_tensor resized = Ok input
    /\ rect3 input 1 28 28
    /\ forall x y, 0 <= x < 28 -> 0 <= y < 28 ->
         at3 input 0 y x = Ok (intensity (pixel x y)).
Proof using All.
  pose (row_done (ch : Grid2D) (y : Z) :=
    exists row, index ch y = Ok row /\ len row = 28
      /\ forall x, 0 <= x < 28 -> index row x = Ok (intensity (pixel x y))).
  pose (done (Y : Z) (input : Tensor3D) :=
    exists ch, input = [ch] /\ len ch = 28
      /\ forall y, 0 <= y < Y -> row_done ch y).
  pose (filling (Y X : Z) (input : Tensor3D) :=
    exists ch, input = [ch] /\ len ch = 28
      /\ (forall y, 0 <= y < Y -> row_done ch y)
      /\ exists row, index ch Y = Ok row /\ len row = 28
           /\ forall x, 0 <= x < X ->
                index row x = Ok (intensity (pixel x Y))).
  unfold input_tensor. simpl bind.
  destruct (for_upto_inv done
              (fun y input =>
                 row <- make 0%float 28 ;;
                 in0 <- index input 0 ;;
                 in0' <- store in0 y row ;;
                 input <- store input 0 in0' ;;
                 for_upto 28
                   (fun x input =>
                      c <- image.GrayAt resized x y ;;
                      store3 input 0 y x (intensity c))
                   input)
              28 [replicate 28 []] ltac:(lia)) as (input & Hl & ch & -> & Hlen & Hrows).
  - eexists. split; [reflexivity|]. split; [reflexivity|]. intros; lia.
  - intros Y input HY (ch & -> & Hlen & Hrows).
    destruct (store ch Y (replicate 28 0%float)) as [ch1|] eqn:Hst;
      [|rewrite store_in_range in Hst by lia; discriminate].
    rewrite (bind_eq_Ok (make 0%float 28) _ (replicate 28 0%float) eq_refl).
    rewrite (bind_eq_Ok (index [ch] 0) _ ch eq_refl).
    rewrite (bind_eq_Ok _ _ _ Hst).
    rewrite (bind_eq_Ok (store [ch] 0 ch1) _ [ch1] eq_refl).
    destruct (for_upto_inv (fun X input => filling Y X input)
                (fun x input =>
                   c <- image.GrayAt resized x Y ;;
                   store3 input 0 Y x (intensity c))
                28 [ch1] ltac:(lia)) as (input' & Hl & ch' & -> & Hlen' & Hrows' & Hrow').
    + exists ch1. split; [reflexivity|].
      split; [rewrite (store_len _ _ _ _ Hst); exact Hlen|]. split.
      * intros y Hy. destruct (Hrows y Hy) as (row & Hrow & Hr).
        exists row. split; [|exact Hr].
        rewrite (index_store_ne _ _ _ _ _ Hst) by lia. exact Hrow.
      * exists (replicate 28 0%float).
        split; [exact (index_store_eq _ _ _ _ Hst)|].
        split; [reflexivity|]. intros; lia.
    + intros X input1 HX (ch2 & -> & Hlen2 & Hrows2 & row & Hrow & Hrl & Hcells).
      rewrite Hpixel by assumption. simpl bind.
      unfold store3. simpl bind. rewrite (bind_eq_Ok _ _ _ Hrow).
      destruct (store row X (intensity (pixel X Y))) as [row'|] eqn:Hs1;
        [|rewrite store_in_range in Hs1 by lia; discriminate].
      simpl bind.
      destruct (store ch2 Y row') as [ch3|] eqn:Hs2;
        [|rewrite store_in_range in Hs2 by lia; discriminate].
      simpl bind. eexists. split; [reflexivity|].
      exists ch3. split; [reflexivity|].
      split; [rewrite (store_len _ _ _ _ Hs2); exact Hlen2|]. split.
      * intros y Hy. destruct (Hrows2 y Hy) as (r & Hr & Hr').
        exists r. split; [|exact Hr'].
        rewrite (index_store_ne _ _ _ _ _ Hs2) by lia. exact Hr.
      * exists row'. split; [exact (index_store_eq _ _ _ _ Hs2)|].
        split; [rewrite (store_len _ _ _ _ Hs1); exact Hrl|].
        intros x Hx. destruct (Z.eq_dec x X) as [->|Hne].
        -- exact (index_store_eq _ _ _ _ Hs1).
        -- rewrite (index_store_ne _ _ _ _ _ Hs1) by congruence.
           apply Hcells. lia.
    + exists [ch']. split; [exact Hl|].
      exists ch'. split; [reflexivity|]. split; [exact Hlen'|].
      intros y Hy. destruct (Z.eq_dec y Y) as [->|Hne].
      * destruct Hrow' as (row & Hrow & Hrl & Hcells).
        exists row. split; [exact Hrow|]. split; [exact Hrl|].
        intros x Hx. apply Hcells. lia.
      * apply Hrows'. lia.
  - exists [ch]. split; [exact Hl|]. split.
    + split; [reflexivity|]. constructor; [|constructor].
      split; [exact Hlen|]. apply Forall_lookup. intros k r Hk.
      pose proof (lookup_lt_Some _ _ _ Hk) as Hlt.
      destruct (Hrows (Z.of_nat k)) as (row & Hrow & Hrl & _);
        [unfold len in Hlen; lia|].
      rewrite (index_of_nat _ _ _ Hk) in Hrow. injection Hrow as ->. exact Hrl.
    + intros x y Hx Hy. destruct (Hrows y Hy) as (row & Hrow & _ & Hcells).
      unfold at3, at2. simpl bind. rewrite (bind_eq_Ok _ _ _ Hrow).
      apply Hcells, Hx.
Qed.

End InputTensor.

Lemma nonneg_or_nan_zero : nonneg_or_nan 0%float.
Proof. right. reflexivity. Qed.

Section NetworkFacts.

Context {Rng : Type} (NormFloat64 : Rng -> float64 * Rng).

Lemma network_spec (input : Tensor3D) (g : Rng) :
  rect3 input 1 28 28 ->
  exists output,
    network NormFloat64 input g
    = Ok (dimension_lines, output, advance NormFloat64 parameter_count g)
    /\ len output = 10
    /\ Forall nonneg_or_nan output.
Proof.
  intros Hin. unfold network. cbv zeta.
  assert (Hmax : 1000 <= GoInt.max_int) by (unfold GoInt.max_int; lia).
  (* conv1 and conv2 are initialized before the forward pass *)
  destruct (randomFilters_rect4 NormFloat64 3 1 3 3 g)
    as (F1 & HF1 & HrF1 & _); try lia.
  rewrite (bind_eq_Ok _ _ _ HF1). cbn [fst snd].
  destruct (randomArray_len NormFloat64 3
              (advance NormFloat64 (3 * 1 * 3 * 3) g))
    as (B1 & HB1 & HlB1 & _); try lia.
  rewrite (bind_eq_Ok _ _ _ HB1). cbn [fst snd].
  rewrite <- advance_add in * by lia.
  destruct (randomFilters_rect4 NormFloat64 5 3 3 3
              (advance NormFloat64 (3 * 1 * 3 * 3 + 3) g))
    as (F2 & HF2 & HrF2 & _); try lia.
  rewrite (bind_eq_Ok _ _ _ HF2). cbn [fst snd].
  rewrite <- advance_add in * by lia.
  destruct (randomArray_len NormFloat64 5
              (advance NormFloat64 (3 * 1 * 3 * 3 + 3 + 5 * 3 * 3 * 3) g))
    as (B2 & HB2 & HlB2 & _); try lia.
  rewrite (bind_eq_Ok _ _ _ HB2). cbn [fst snd].
  rewrite <- advance_add in * by lia.
  (* the forward pass up to the flattened vector *)
  destruct (ConvLayer_Forward_spec (ConvLayer.Build F1 B1 1 1) input
              3 1 3 3 1 28 28) as (x1 & Hx1 & Hr1 & _);
    try assumption; simpl; try lia.
  rewrite (bind_eq_Ok _ _ _ Hx1).
  change (output_size 28 3 1 1) with 28 in Hr1.
  rewrite (bind_eq_Ok _ _ _ (printDimensions_rect3 _ x1 3 28 28 Hr1
                               ltac:(lia) ltac:(lia))).
  destruct (MaxPoolLayer_Forward_spec (MaxPoolLayer.Build 2 2) x1 3 28 28)
    as (x2 & Hx2 & Hr2 & _); try assumption; simpl; try lia.
  rewrite (bind_eq_Ok _ _ _ Hx2).
  change (output_size 28 2 2 0) with 14 in Hr2.
  rewrite (bind_eq_Ok _ _ _ (printDimensions_rect3 _ x2 3 14 14 Hr2
                               ltac:(lia) ltac:(lia))).
  destruct (ConvLayer_Forward_spec (ConvLayer.Build F2 B2 1 1) x2
              5 3 3 3 3 14 14) as (x3 & Hx3 & Hr3 & _);
    try assumption; simpl; try lia.
  rewrite (bind_eq_Ok _ _ _ Hx3).
  change (output_size 14 3 1 1) with 14 in Hr3.
  rewrite (bind_eq_Ok _ _ _ (printDimensions_rect3 _ x3 5 14 14 Hr3
                               ltac:(lia) ltac:(lia))).
  destruct (MaxPoolLayer_Forward_spec (MaxPoolLayer.Build 2 2) x3 5 14 14)
    as (x4 & Hx4 & Hr4 & _); try assumption; simpl; try lia.
  rewrite (bind_eq_Ok _ _ _ Hx4).
  change (output_size 14 2 2 0) with 7 in Hr4.
  rewrite (bind_eq_Ok _ _ _ (printDimensions_rect3 _ x4 5 7 7 Hr4
                               ltac:(lia) ltac:(lia))).
  destruct (FlattenLayer_Forward_spec x4 5 7 7)
    as (flatX & HflatX & Hlen & _); try assumption; try lia.
  rewrite (bind_eq_Ok _ _ _ HflatX).
  change (5 * 7 * 7) with 245 in Hlen. rewrite Hlen.
  (* dense1, sized from the flattened vector *)
  destruct (randomMatrix_rect2 NormFloat64 128 245
              (advance NormFloat64
                 (3 * 1 * 3 * 3 + 3 + 5 * 3 * 3 * 3 + 5) g))
    as (W1 & HW1 & HrW1 & _); try lia.
  rewrite (bind_eq_Ok _ _ _ HW1). cbn [fst snd].
  rewrite <- advance_add in * by lia.
  destruct (randomArray_len NormFloat64 128
              (advance NormFloat64
                 (3 * 1 * 3 * 3 + 3 + 5 * 3 * 3 * 3 + 5 + 128 * 245) g))
    as (C1 & HC1 & HlC1 & _); try lia.
  rewrite (bind_eq_Ok _ _ _ HC1). cbn [fst snd].
  rewrite <- advance_add in * by lia.
  pose proof (DenseLayer_Forward_spec (DenseLayer.Build W1 C1) flatX 128 245
                HrW1 ltac:(simpl; lia) ltac:(lia)) as Hd1.
  rewrite (bind_eq_Ok _ _ _ Hd1).
  assert (Hld1 : len (dense_output (DenseLayer.Build W1 C1) flatX
                      <$> seqZ 0 (len (DenseLayer.Biases
                                         (DenseLayer.Build W1 C1)))) = 128).
  { rewrite len_fmap_seqZ by apply len_nonneg. exact HlC1. }
  (* dense2 *)
  destruct (randomMatrix_rect2 NormFloat64 10 128
              (advance NormFloat64
                 (3 * 1 * 3 * 3 + 3 + 5 * 3 * 3 * 3 + 5 + 128 * 245 + 128) g))
    as (W2 & HW2 & HrW2 & _); try lia.
  rewrite (bind_eq_Ok _ _ _ HW2). cbn [fst snd].
  rewrite <- advance_add in * by lia.
  destruct (randomArray_len NormFloat64 10
              (advance NormFloat64
                 (3 * 1 * 3 * 3 + 3 + 5 * 3 * 3 * 3 + 5 + 128 * 245 + 128
                  + 10 * 128) g))
    as (C2 & HC2 & HlC2 & _); try lia.
  rewrite (bind_eq_Ok _ _ _ HC2). cbn [fst snd].
  rewrite <- advance_add in * by lia.
  pose proof (DenseLayer_Forward_spec (DenseLayer.Build W2 C2) _ 10 128
                HrW2 ltac:(simpl; lia) ltac:(rewrite Hld1; lia)) as Hd2.
  rewrite (bind_eq_Ok _ _ _ Hd2).
  eexists. split; [|split].
  - reflexivity.
  - rewrite len_fmap_seqZ by apply len_nonneg. exact HlC2.
  - exact (DenseLayer_Forward_cells nonneg_or_nan nonneg_or_nan_zero _ _ _
             relu_nonneg_or_nan Hd2).
Qed.

End NetworkFacts.

(** ** Negative padding *)

Lemma make2D_result (rows cols : Z) :
  make2D rows cols = Panic makeslice_len_out_of_range
  \/ exists g, make2D rows cols = Ok g.
Proof.
  destruct (Z.lt_ge_cases rows 0) as [Hr|Hr].
  - left. unfold make2D. rewrite make_negative by exact Hr. reflexivity.
  - destruct (Z.lt_ge_cases cols 0) as [Hc|Hc].
    + destruct (Z.eq_dec rows 0) as [->|Hr0]; [right; eexists; reflexivity|].
      left. unfold make2D. rewrite make_nonneg by exact Hr. simpl.
      apply for_upto_first_panic; [rewrite len_replicate; lia|].
      rewrite make_negative by exact Hc. reflexivity.
    + right. eexists. apply make2D_spec; assumption.
Qed.

Lemma pad2D_negative (input : Grid2D) (padding : Z) :
  GoInt.min_int <= padding < 0 ->
  pad2D input padding = Panic index_out_of_range
  \/ pad2D input padding = Panic makeslice_len_out_of_range.
Proof.
  intros Hp. unfold pad2D.
  destruct (Z.eqb_spec padding 0) as [|_]; [lia|].
  destruct (index input 0) as [in0|e] eqn:Hin0.
  2:{ left. unfold index in Hin0.
      destruct (0 <? 0); [|destruct (input !! Z.to_nat 0)];
        try discriminate; injection Hin0 as <-; reflexivity. }
  simpl.
  destruct (make2D_result (GoInt.add (len input) (GoInt.mul 2 padding))
              (GoInt.add (len in0) (GoInt.mul 2 padding))) as [H|[g H]];
    rewrite H; simpl; [right; reflexivity|].
  left. apply for_upto_first_panic.
  - apply index_Ok_range in Hin0. lia.
  - unfold GoInt.add. rewrite Z.add_0_l.
    rewrite GoIntFacts.wrap_in_range
      by (unfold GoInt.in_range, GoInt.min_int, GoInt.max_int in *; lia).
    rewrite index_out_of_range_panic by lia. reflexivity.
Qed.

(** ** The rectifier *)

Lemma relu_positive (x : float) :
  (0 <? x)%float = true -> (x <=? math.MaxFloat64)%float = true -> relu x = x.
Proof.
  intros Hpos Hfin. rewrite relu_unfold.
  rewrite (leb_not_ltb _ _ Hfin).
  destruct (float_ltb_not_nan _ _ Hpos) as [_ ->].
  destruct (0 =? x)%float eqn:E.
  - exfalso. revert Hpos E.
    rewrite FloatAxioms.ltb_spec, FloatAxioms.eqb_spec. unfold SFltb, SFeqb.
    destruct (SFcompare _ _) as [[]|]; discriminate.
  - destruct (x <? 0)%float eqn:E'; [|reflexivity].
    pose proof (float_ltb_trans _ _ _ Hpos E') as H.
    rewrite float_ltb_irrefl in H. discriminate.
Qed.

Lemma relu_nonpositive (x : float) :
  (x <=? 0)%float = true -> relu x = 0%float.
Proof.
  intros Hle. rewrite relu_unfold. unfold math.IsNaN.
  rewrite !FloatAxioms.ltb_spec, !FloatAxioms.eqb_spec.
  rewrite FloatAxioms.leb_spec in Hle.
  unfold SFltb, SFeqb, SFleb in *.
  change (Prim2SF 0) with (S754_zero false) in *.
  change (Prim2SF math.MaxFloat64)
    with (S754_finite false 9007199254740991 971).
  destruct (Prim2SF x) as [s|s| |s m e]; simpl in *;
    try destruct s; simpl in *; try discriminate; try reflexivity.
  rewrite Z.compare_refl.
  change (PosDef.Pos.compare_cont Eq m m) with (Pos.compare m m).
  rewrite Pos.compare_refl. reflexivity.
Qed.

Lemma relu_idempotent (x : float) : relu (relu x) = relu x.
Proof.
  rewrite (relu_unfold x).
  destruct (math.MaxFloat64 <? x)%float eqn:Hmax; [reflexivity|].
  destruct (math.IsNaN x) eqn:Hnan; [reflexivity|].
  destruct (0 =? x)%float eqn:Hz; [reflexivity|].
  destruct (x <? 0)%float eqn:Hneg; [reflexivity|].
  rewrite relu_unfold, Hmax, Hnan, Hz, Hneg. reflexivity.
Qed.

Lemma intensity_increasing (b1 b2 : byte) :
  (Byte.to_N b1 < Byte.to_N b2)%N ->
  (intensity b1 <? intensity b2)%float = true.
Proof.
  intros Hlt.
  pose (level := fun n : Z => (PrimFloat.of_uint63 (Uint63.of_Z n) / 255)%float).
  assert (Hall : forallb (fun i => forallb (fun j =>
                    implb (i <? j) (level i <? level j)%float)
                    (seqZ 0 256)) (seqZ 0 256) = true)
    by (vm_compute; reflexivity).
  rewrite forallb_forall in Hall.
  pose proof (Byte.to_N_bounded b1) as H1.
  pose proof (Byte.to_N_bounded b2) as H2.
  assert (Hin : forall b : byte, In (Z.of_N (Byte.to_N b)) (seqZ 0 256)).
  { intros b. pose proof (Byte.to_N_bounded b).
    apply list_elem_of_In, elem_of_seqZ. lia. }
  pose proof (Hall _ (Hin b1)) as Hrow.
  rewrite forallb_forall in Hrow.
  specialize (Hrow _ (Hin b2)).
  destruct (Z.ltb_spec (Z.of_N (Byte.to_N b1)) (Z.of_N (Byte.to_N b2)));
    [exact Hrow | lia].
Qed.

Lemma all_cells_at3 (P : float64 -> Prop) (t : Tensor3D) (c h w : Z) :
  rect3 t c h w ->
  (forall ch y x, 0 <= ch < c -> 0 <= y < h -> 0 <= x < w ->
     exists v, at3 t ch y x = Ok v /\ P v) ->
  all_cells P t.
Proof.
  intros Hr H. apply Forall_lookup. intros k g Hk.
  pose proof (index_of_nat _ _ _ Hk) as Hg.
  pose proof (rect3_index _ _ _ _ _ _ Hr Hg) as Hrg.
  apply Forall_lookup. intros i r Hi.
  pose proof (index_of_nat _ _ _ Hi) as Hrow.
  pose proof (rect2_index _ _ _ _ _ Hrg Hrow) as Hlr.
  apply Forall_lookup. intros j v Hj.
  pose proof (index_of_nat _ _ _ Hj) as Hv.
  destruct (H (Z.of_nat k) (Z.of_nat i) (Z.of_nat j)) as (v' & Hat & HP).
  - apply index_Ok_range in Hg. destruct Hr as [<- _]. exact Hg.
  - apply index_Ok_range in Hrow. destruct Hrg as [<- _]. exact Hrow.
  - apply index_Ok_range in Hv. rewrite <- Hlr. exact Hv.
  - unfold at3, at2 in Hat. rewrite Hg in Hat. simpl in Hat.
    rewrite Hrow in Hat. simpl in Hat. rewrite Hv in Hat.
    injection Hat as ->. exact HP.
Qed.

(** ** Concrete runs *)

Example random_matrix_run :
  (r <- randomMatrix counter 2 3 10 ;; x <- at2 (fst r) 1 2 ;; Ok (x, snd r))
  = Ok ((15 * one_tenth)%float, 16).
Proof. reflexivity. Qed.

(** Pixel [(27, 27)] of the copy of a 56×56 image is its pixel
    [(54, 54)]. *)
Example input_gradient_run :
  (resized <- resize gradient_56 ;;
   input <- input_tensor resized ;;
   at3 input 0 27 27) = Ok (intensity "l").
Proof. vm_compute. reflexivity. Qed.

Example flatten_ragged_runs :
  FlattenLayer.Forward short_second_row = Ok [1; 2; 3; 0]%float
  /\ FlattenLayer.Forward long_second_row = Panic index_out_of_range.
Proof. split; reflexivity. Qed.

(** * Properties of the rest of the program *)

(** ** The initialization helpers *)







(** X4: the helpers check no size.  A negative size that an allocation
    reaches makes them panic with Go's makeslice run-time error: a
    negative outer size always, a negative inner size whenever all the
    sizes outside it are at least 1.  With an outer size of 0 they return
    an empty result without drawing anything, whatever the inner sizes
    are. *)
Theorem random_negative_size {Rng : Type}
  (NormFloat64 : Rng -> float64 * Rng) (g : Rng) :
  (forall size, size < 0 ->
     randomArray NormFloat64 size g = Panic makeslice_len_out_of_range)
  /\ (forall rows cols, rows < 0 \/ (1 <= rows /\ cols < 0) ->
        randomMatrix NormFloat64 rows cols g
        = Panic makeslice_len_out_of_range)
  /\ (forall cols, randomMatrix NormFloat64 0 cols g = Ok ([], g))
  /\ (forall num channels height width,
        num < 0 \/ (1 <= num /\ (channels < 0 \/ (1 <= channels /\
          (height < 0 \/ (1 <= height /\ width < 0))))) ->
        randomFilters NormFloat64 num channels height width g
        = Panic makeslice_len_out_of_range)
  /\ (forall channels height width,
        randomFilters NormFloat64 0 channels height width g = Ok ([], g)).
Proof.
  split; [|split; [|split; [|split]]].
  - intros size. apply randomArray_negative.
  - intros rows cols. apply randomMatrix_negative.
  - reflexivity.
  - intros num channels height width. apply randomFilters_negative.
  - reflexivity.
Qed.

(** ** The dimension check after an empty output *)

(** X5: a pooling layer whose computed output height is 0 returns one
    empty channel per input channel without any error, and the
    [printDimensions] call that [main] makes on the result then panics
    with Go's index-out-of-range run-time error (it reads
    [len(x[0][0])]). *)
Theorem empty_pool_output_fails_dimension_print (mpl : MaxPoolLayer.t)
  (input : Tensor3D) (label : string) (channels h w outW : Z) :
  rect3 input channels h w -> 1 <= channels -> 1 <= h ->
  MaxPoolLayer.out_dim h (MaxPoolLayer.PoolSize mpl)
    (MaxPoolLayer.Stride mpl) = Ok 0 ->
  MaxPoolLayer.out_dim w (MaxPoolLayer.PoolSize mpl)
    (MaxPoolLayer.Stride mpl) = Ok outW ->
  MaxPoolLayer.Forward mpl input = Ok (replicate (length input) [])
  /\ (x <- MaxPoolLayer.Forward mpl input ;; printDimensions label x)
     = Panic index_out_of_range.
Proof.
  intros Hin Hc Hh HoH HoW.
  destruct (index_in_range input 0) as [in0 Hin0]; [destruct Hin; lia|].
  pose proof (rect3_index _ _ _ _ _ _ Hin Hin0) as Hr.
  destruct (index_in_range in0 0) as [in00 Hin00]; [destruct Hr; lia|].
  pose proof (rect2_index _ _ _ _ _ Hr Hin00) as Hw.
  destruct Hr as [Hlen _]. rewrite <- Hlen in HoH. rewrite <- Hw in HoW.
  pose proof (MaxPoolLayer_zero_height mpl input in0 in00 Hin0 Hin00 outW
                HoH HoW) as Hfwd.
  split; [exact Hfwd|]. rewrite Hfwd. simpl.
  apply printDimensions_empty_channel.
  apply index_replicate. destruct Hin as [Hl _]. unfold len in Hl. lia.
Qed.

Lemma empty_pool_output_fails_dimension_print_witness :
  MaxPoolLayer.Forward pool_3x3 [ones 2 2]
  = Ok (replicate (length [ones 2 2]) [])
  /\ (x <- MaxPoolLayer.Forward pool_3x3 [ones 2 2] ;;
      printDimensions "After pool1" x)
     = Panic index_out_of_range.
Proof.
  apply (empty_pool_output_fails_dimension_print pool_3x3 [ones 2 2]
           "After pool1" 1 2 2 0);
    try lia; try solve_rect.
Defined.

(** ** The input that [main] builds *)

(** X6: the source point that [main] samples for the pixel [(x, y)] of
    the 28×28 copy, [0 <= x, y < 28], is
    [(Min.X + x*Dx/28, Min.Y + y*Dy/28)] and lies inside the bounds of
    the decoded image, for every non-empty bounds rectangle whose corners
    are Go [int]s and whose width and height times 27 fit Go's [int]. *)
Theorem sample_points_inside_bounds (b : image.Rectangle) (x y : Z) :
  GoInt.min_int <= image.MinX b -> image.MinX b < image.MaxX b ->
  image.MaxX b <= GoInt.max_int ->
  GoInt.min_int <= image.MinY b -> image.MinY b < image.MaxY b ->
  image.MaxY b <= GoInt.max_int ->
  27 * (image.MaxX b - image.MinX b) <= GoInt.max_int ->
  27 * (image.MaxY b - image.MinY b) <= GoInt.max_int ->
  0 <= x < 28 -> 0 <= y < 28 ->
  exists srcX srcY,
    sample_coord (image.MinX b) (image.Dx b) x = Ok srcX
    /\ sample_coord (image.MinY b) (image.Dy b) y = Ok srcY
    /\ srcX = image.MinX b + x * (image.MaxX b - image.MinX b) / 28
    /\ srcY = image.MinY b + y * (image.MaxY b - image.MinY b) / 28
    /\ image.PointIn srcX srcY b = true.
Proof.
  intros HminX HX HmaxX HminY HY HmaxY HfitX HfitY Hx Hy.
  assert (HDx : image.Dx b = image.MaxX b - image.MinX b).
  { apply GoIntFacts.sub_in_range.
    unfold GoInt.in_range, GoInt.min_int, GoInt.max_int in *. lia. }
  assert (HDy : image.Dy b = image.MaxY b - image.MinY b).
  { apply GoIntFacts.sub_in_range.
    unfold GoInt.in_range, GoInt.min_int, GoInt.max_int in *. lia. }
  rewrite HDx, HDy.
  destruct (sample_coord_spec (image.MinX b) (image.MaxX b - image.MinX b) x)
    as (HsX & HloX & HhiX); try lia.
  destruct (sample_coord_spec (image.MinY b) (image.MaxY b - image.MinY b) y)
    as (HsY & HloY & HhiY); try lia.
  eexists _, _. split; [exact HsX|]. split; [exact HsY|].
  split; [reflexivity|]. split; [reflexivity|].
  unfold image.PointIn.
  specialize (HhiX ltac:(lia)). specialize (HhiY ltac:(lia)).
  destruct (Z.leb_spec (image.MinX b)
              (image.MinX b + x * (image.MaxX b - image.MinX b) / 28)); [|lia].
  destruct (Z.ltb_spec
              (image.MinX b + x * (image.MaxX b - image.MinX b) / 28)
              (image.MaxX b)); [|lia].
  destruct (Z.leb_spec (image.MinY b)
              (image.MinY b + y * (image.MaxY b - image.MinY b) / 28)); [|lia].
  destruct (Z.ltb_spec
              (image.MinY b + y * (image.MaxY b - image.MinY b) / 28)
              (image.MaxY b)); [|lia].
  reflexivity.
Qed.

Lemma sample_points_inside_bounds_witness :
  exists srcX srcY,
    sample_coord 0 (image.Dx (image.Rect 0 0 56 56)) 27 = Ok srcX
    /\ sample_coord 0 (image.Dy (image.Rect 0 0 56 56)) 27 = Ok srcY
    /\ srcX = 0 + 27 * (56 - 0) / 28
    /\ srcY = 0 + 27 * (56 - 0) / 28
    /\ image.PointIn srcX srcY (image.Rect 0 0 56 56) = true.
Proof.
  apply (sample_points_inside_bounds (image.Rect 0 0 56 56) 27 27);
    unfold GoInt.min_int, GoInt.max_int; simpl; lia.
Defined.

(** X7: the normalisation [float64(gray) / 255.0] of line 241 maps every
    gray level into the interval from 0 to 1, black to exactly 0 and
    white to exactly 1, and is strictly increasing: distinct gray levels
    give distinct cell values in the same order. *)
Theorem intensity_normalised :
  (forall b, unit_interval (intensity b))
  /\ intensity x00 = 0%float
  /\ intensity xff = 1%float
  /\ forall b1 b2, (Byte.to_N b1 < Byte.to_N b2)%N ->
       (intensity b1 <? intensity b2)%float = true.
Proof.
  split; [exact intensity_unit|]. split; [reflexivity|].
  split; [reflexivity|]. exact intensity_increasing.
Qed.

(** X8: for every decoded image, whatever its bounds, lines 224 to 243
    return normally: the resize loop fills the 28×28 gray copy, and the
    input tensor built from it has exactly 1 channel of 28 rows of 28
    cells, cell [(0, y, x)] being the normalised gray level of the sampled
    source point of pixel [(x, y)]; every cell lies between 0 and 1. *)
Theorem input_tensor_from_image (img : image.Image) :
  exists resized input,
    resize img = Ok resized
    /\ input_tensor resized = Ok input
    /\ rect3 input 1 28 28
    /\ (forall x y, 0 <= x < 28 -> 0 <= y < 28 ->
          sample_coord (image.MinX (image.ImageBounds img))
            (image.Dx (image.ImageBounds img)) x
          = Ok (source_coord (image.MinX (image.ImageBounds img))
                  (image.Dx (image.ImageBounds img)) x)
          /\ sample_coord (image.MinY (image.ImageBounds img))
               (image.Dy (image.ImageBounds img)) y
             = Ok (source_coord (image.MinY (image.ImageBounds img))
                     (image.Dy (image.ImageBounds img)) y)
          /\ at3 input 0 y x = Ok (intensity (sampled img x y)))
    /\ all_cells unit_interval input.
Proof.
  destruct (resize_spec img) as (resized & Hres & _ & Hpix).
  destruct (input_tensor_spec resized (sampled img) Hpix)
    as (input & Hin & Hrect & Hcells).
  exists resized, input. split; [exact Hres|]. split; [exact Hin|].
  split; [exact Hrect|]. split.
  - intros x y Hx Hy. split; [reflexivity|]. split; [reflexivity|].
    apply Hcells; assumption.
  - apply (all_cells_at3 unit_interval input 1 28 28 Hrect).
    intros ch y x Hch Hy Hx. assert (ch = 0) as -> by lia.
    exists (intensity (sampled img x y)).
    split; [apply Hcells; assumption | apply intensity_unit].
Qed.

(** ** The network of [main] *)



(** X10: from every decoded image and every state of the generator,
    [main] runs from line 223 to line 297 without a panic: it writes the
    five dimension lines and computes exactly 10 class scores, each NaN
    or >= 0. *)
Theorem main_runs_on_any_image {Rng : Type}
  (NormFloat64 : Rng -> float64 * Rng) (img : image.Image) (g : Rng) :
  exists output,
    main_from NormFloat64 img g
    = Ok (dimension_lines, output, advance NormFloat64 parameter_count g)
    /\ len output = 10
    /\ Forall nonneg_or_nan output.
Proof.
  unfold main_from.
  destruct (resize_spec img) as (resized & Hres & _ & Hpix).
  rewrite Hres. cbn beta iota delta [bind].
  destruct (input_tensor_spec resized (sampled img) Hpix)
    as (input & Hin & Hrect & _).
  rewrite Hin. cbn beta iota delta [bind].
  apply network_spec, Hrect.
Qed.

(** ** A negative padding *)

(** X11: [pad2D] with a negative padding never returns: for every grid
    it panics, with Go's index-out-of-range error (the grid is empty, or
    the first row is copied to the negative index [0 + padding]) or with
    the makeslice error (a padded size is negative). *)
Theorem pad2D_negative_padding (input : Grid2D) (padding : Z) :
  GoInt.min_int <= padding < 0 ->
  pad2D input padding = Panic index_out_of_range
  \/ pad2D input padding = Panic makeslice_len_out_of_range.
Proof. apply pad2D_negative. Qed.

Lemma pad2D_negative_padding_witness :
  pad2D (ones 2 2) (-1) = Panic index_out_of_range
  \/ pad2D (ones 2 2) (-1) = Panic makeslice_len_out_of_range.
Proof.
  apply (pad2D_negative_padding (ones 2 2) (-1)).
  unfold GoInt.min_int. lia.
Defined.

(** X12: a convolution layer with a negative [Padding] produces no
    output on any input: [Forward] always panics (the layer validates no
    configuration, and the padding loop fails on the first channel at the
    latest). *)
Theorem conv_negative_padding (cl : ConvLayer.t) (input : Tensor3D) :
  GoInt.min_int <= ConvLayer.Padding cl < 0 ->
  exists p, ConvLayer.Forward cl input = Panic p.
Proof.
  intros Hp. unfold ConvLayer.Forward.
  destruct (index (ConvLayer.Filters cl) 0) as [f0|]; [|eexists; reflexivity].
  simpl.
  destruct (index f0 0) as [f00|]; [|eexists; reflexivity]. simpl.
  destruct (index f00 0) as [f000|]; [|eexists; reflexivity]. simpl.
  destruct (index input 0) as [in0|] eqn:Hin0; [|eexists; reflexivity]. simpl.
  destruct (index in0 0) as [in00|]; [|eexists; reflexivity]. simpl.
  destruct (ConvLayer.out_dim _ _ _ _) as [outH|]; [|eexists; reflexivity].
  simpl.
  destruct (ConvLayer.out_dim _ _ _ _) as [outW|]; [|eexists; reflexivity].
  simpl.
  destruct (make3D _ _ _) as [output|]; [|eexists; reflexivity]. simpl.
  pose proof (index_Ok_range _ _ _ Hin0) as Hlen.
  rewrite make_nonneg by lia. simpl.
  destruct (pad2D_negative in0 (ConvLayer.Padding cl) Hp) as [H|H].
  - exists index_out_of_range.
    rewrite (for_upto_first_panic _ _ _ index_out_of_range); [reflexivity| |].
    + rewrite len_replicate. lia.
    + rewrite Hin0. simpl. rewrite H. reflexivity.
  - exists makeslice_len_out_of_range.
    rewrite (for_upto_first_panic _ _ _ makeslice_len_out_of_range);
      [reflexivity| |].
    + rewrite len_replicate. lia.
    + rewrite Hin0. simpl. rewrite H. reflexivity.
Qed.

Lemma conv_negative_padding_witness :
  exists p,
    ConvLayer.Forward conv_negative_padding_layer [ones 4 4] = Panic p.
Proof.
  apply (conv_negative_padding conv_negative_padding_layer [ones 4 4]).
  unfold GoInt.min_int. simpl. lia.
Defined.

(** ** The activation on every float64 *)

(** X13: [relu] is the rectifier on every float64 that is not NaN: it
    returns [x] itself for every finite [x > 0] and for +Inf, and +0 for
    every [x <= 0] (−0 and −Inf included); it is idempotent on every
    float64, NaN included. *)
Theorem relu_cases (x : float64) :
  ((0 <? x)%float = true -> (x <=? math.MaxFloat64)%float = true ->
     relu x = x)
  /\ relu infinity = infinity
  /\ ((x <=? 0)%float = true -> relu x = 0%float)
  /\ relu (relu x) = relu x.
Proof.
  split; [apply relu_positive|]. split; [reflexivity|].
  split; [apply relu_nonpositive | apply relu_idempotent].
Qed.

(** * Inputs the layers do not expect *)

Lemma index_panic {A : Type} (s : list A) (i : Z) (p : panic) :
  index s i = Panic p -> p = index_out_of_range.
Proof.
  unfold index. destruct (i <? 0); [congruence|].
  destruct (s !! Z.to_nat i); [discriminate | congruence].
Qed.

Lemma ConvLayer_no_first_row (cl : ConvLayer.t) (input : Tensor3D) :
  input = [] \/ (exists rest, input = [] :: rest) ->
  ConvLayer.Forward cl input = Panic index_out_of_range.
Proof.
  intros Hin. unfold ConvLayer.Forward.
  destruct (index (ConvLayer.Filters cl) 0) as [f0|p] eqn:E0;
    [|rewrite (index_panic _ _ _ E0); reflexivity].
  simpl.
  destruct (index f0 0) as [f00|p] eqn:E1;
    [|rewrite (index_panic _ _ _ E1); reflexivity].
  simpl.
  destruct (index f00 0) as [f000|p] eqn:E2;
    [|rewrite (index_panic _ _ _ E2); reflexivity].
  simpl.
  destruct Hin as [->|[rest ->]]; reflexivity.
Qed.








Section FlattenRagged.

Variable input : Tensor3D.






End FlattenRagged.

(** X14: no layer checks that its input has a first channel with a first
    row.  On a tensor without channels, and on a tensor whose first
    channel has no rows, the three tensor layers and [printDimensions]
    all panic with Go's index-out-of-range run-time error, whatever the
    layer's parameters are. *)
Theorem tensor_without_first_row (cl : ConvLayer.t) (mpl : MaxPoolLayer.t)
  (label : string) (rest : Tensor3D) :
  ConvLayer.Forward cl [] = Panic index_out_of_range
  /\ ConvLayer.Forward cl ([] :: rest) = Panic index_out_of_range
  /\ MaxPoolLayer.Forward mpl [] = Panic index_out_of_range
  /\ MaxPoolLayer.Forward mpl ([] :: rest) = Panic index_out_of_range
  /\ FlattenLayer.Forward [] = Panic index_out_of_range
  /\ FlattenLayer.Forward ([] :: rest) = Panic index_out_of_range
  /\ printDimensions label [] = Panic index_out_of_range
  /\ printDimensions label ([] :: rest) = Panic index_out_of_range.
Proof.
  split; [apply ConvLayer_no_first_row; left; reflexivity|].
  split; [apply ConvLayer_no_first_row; right; exists rest; reflexivity|].
  repeat split.
Qed.

(** X15: on an empty input vector the dense layer never reads its weight
    matrix: for every layer, whatever [Weights] holds, [Forward] returns
    normally one output per bias, [relu] of that bias. *)
Theorem dense_empty_input (dl : DenseLayer.t) :
  DenseLayer.Forward dl [] = Ok (relu <$> DenseLayer.Biases dl).
Proof.
  unfold DenseLayer.Forward.
  rewrite make_nonneg by apply len_nonneg. simpl.
  rewrite len_replicate, Z2Nat.id by apply len_nonneg.
  rewrite (fill1 _ (fun i => relu (value (index (DenseLayer.Biases dl) i)))
             (len (DenseLayer.Biases dl))).
  - f_equal. apply tabulate_eq.
    + unfold len. rewrite length_fmap. reflexivity.
    + intros i Hi.
      destruct (index_in_range (DenseLayer.Biases dl) i Hi) as [b Hb].
      rewrite Hb. simpl. apply index_Ok in Hb as [Hi0 Hb].
      apply index_Ok. split; [exact Hi0|].
      rewrite list_lookup_fmap, Hb. reflexivity.
  - rewrite len_replicate. pose proof (len_nonneg (DenseLayer.Biases dl)). lia.
  - intros i s Hi.
    destruct (index_in_range (DenseLayer.Biases dl) i Hi) as [b Hb].
    rewrite Hb. simpl.
    destruct (Z.lt_ge_cases i (len s)) as [Hlt|Hge].
    + rewrite !store_in_range by lia. simpl.
      change (for_upto 0 _ ?s) with (Ok s). simpl.
      assert (Hoi : index (<[Z.to_nat i := b]> s) i = Ok b).
      { apply index_Ok. split; [lia|]. apply list_lookup_insert_eq.
        unfold len in Hlt. lia. }
      rewrite Hoi. simpl.
      rewrite store_in_range by (unfold len in *; rewrite length_insert; lia).
      rewrite list_insert_insert_eq. reflexivity.
    + unfold store.
      destruct (Z.ltb_spec i (len s)); [lia|].
      rewrite andb_false_r. reflexivity.
Qed.

(** X16: the block that [main] applies twice.  A convolution with 3×3
    kernels, stride 1 and padding 1 keeps the height and the width of its
    input, and the 2×2 pooling with stride 2 that follows halves them,
    rounding down: on a rectangular input of at least 2×2 cells per
    channel the two [Forward] calls return normally, with one channel per
    filter, and every cell of the result is NaN or >= 0. *)
Theorem conv_pool_block_shape (cl : ConvLayer.t) (input : Tensor3D)
  (numFilters filterChannels inChannels h w : Z) :
  rect4 (ConvLayer.Filters cl) numFilters filterChannels 3 3 ->
  rect3 input inChannels h w ->
  1 <= numFilters <= len (ConvLayer.Biases cl) ->
  1 <= inChannels <= filterChannels ->
  ConvLayer.Stride cl = 1 -> ConvLayer.Padding cl = 1 ->
  2 <= h -> 2 <= w ->
  h + 2 <= GoInt.max_int -> w + 2 <= GoInt.max_int ->
  exists x1 x2,
    ConvLayer.Forward cl input = Ok x1
    /\ rect3 x1 numFilters h w
    /\ MaxPoolLayer.Forward pool_2x2 x1 = Ok x2
    /\ rect3 x2 numFilters (h / 2) (w / 2)
    /\ all_cells nonneg_or_nan x2.
Proof.
  intros HF Hin Hn Hc Hs Hp Hh Hw HfitH HfitW.
  destruct (ConvLayer_Forward_spec cl input numFilters filterChannels 3 3
              inChannels h w) as (x1 & Hx1 & Hr1 & _);
    try assumption; rewrite ?Hs, ?Hp; try lia.
  rewrite Hs, Hp in Hr1.
  assert (Hsame : forall n, output_size n 3 1 1 = n).
  { intros n. unfold output_size. rewrite Z.div_1_r. lia. }
  rewrite !Hsame in Hr1.
  destruct (MaxPoolLayer_Forward_spec pool_2x2 x1 numFilters h w)
    as (x2 & Hx2 & Hr2 & _); try assumption; simpl; try lia.
  assert (Hhalf : forall n, output_size n 2 2 0 = n / 2).
  { intros n. unfold output_size.
    replace (n + 2 * 0 - 2) with (n + (-1) * 2) by lia.
    rewrite Z.div_add by lia. lia. }
  simpl in Hr2. rewrite !Hhalf in Hr2.
  exists x1, x2. split; [exact Hx1|]. split; [exact Hr1|].
  split; [exact Hx2|]. split; [exact Hr2|].
  assert (H0 : nonneg_or_nan 0%float) by (right; reflexivity).
  eapply (MaxPoolLayer_Forward_cells nonneg_or_nan H0); [|exact Hx2].
  exact (ConvLayer_Forward_cells nonneg_or_nan H0 cl input x1
           relu_nonneg_or_nan Hx1).
Qed.

Lemma conv_pool_block_shape_witness :
  exists x1 x2,
    ConvLayer.Forward conv_3x3_ones [ones 5 5] = Ok x1
    /\ rect3 x1 1 5 5
    /\ MaxPoolLayer.Forward pool_2x2 x1 = Ok x2
    /\ rect3 x2 1 (5 / 2) (5 / 2)
    /\ all_cells nonneg_or_nan x2.
Proof.
  apply (conv_pool_block_shape conv_3x3_ones [ones 5 5] 1 1 1 5 5);
    try (unfold GoInt.max_int; simpl; lia); try solve_rect.
Defined.


